(** * DemoViewer: the ingestion, cache and render pipeline

    A shallow embedding of [DemoViewer/parser.py], [DemoViewer/actions.py],
    [DemoViewer/window.py] and [DemoViewer/heatmap.py], followed by the
    properties of the cache lookup, the team normalisation, the disk budget,
    the footstep downsampling and the flat-grid rendering. *)

From Stdlib Require Import ZArith QArith Qround Qminmax Ascii String.
From stdpp Require Import gmap strings list fin_maps pretty sorting.

Set Warnings "-clear-no-such-hyp".

Local Open Scope Z_scope.
Local Open Scope string_scope.

(** ** Python values

    The scalars that reach the code through the decoder's rows and the demo
    header: [None], booleans, integers and text. *)

Inductive PyVal :=
  | PyNone
  | PyBool (b : bool)
  | PyInt (z : Z)
  | PyStr (s : string).

Global Instance PyVal_eq_dec : EqDecision PyVal.
Proof. solve_decision. Defined.

Definition PyVal_code (v : PyVal) : unit + bool + Z + string :=
  match v with
  | PyNone => inl (inl (inl ()))
  | PyBool b => inl (inl (inr b))
  | PyInt z => inl (inr z)
  | PyStr s => inr s
  end.

Definition PyVal_decode (c : unit + bool + Z + string) : PyVal :=
  match c with
  | inl (inl (inl _)) => PyNone
  | inl (inl (inr b)) => PyBool b
  | inl (inr z) => PyInt z
  | inr s => PyStr s
  end.

Global Instance PyVal_countable : Countable PyVal.
Proof.
  refine (inj_countable' PyVal_code PyVal_decode _).
  intros []; reflexivity.
Defined.

(** [bool(v)]: the truth value Python gives a scalar. *)
Definition truthy (v : PyVal) : bool :=
  match v with
  | PyNone => false
  | PyBool b => b
  | PyInt z => negb (Z.eqb z 0)
  | PyStr s => negb (String.eqb s "")
  end.

(** [str(v)]. *)
Definition py_str (v : PyVal) : string :=
  match v with
  | PyNone => "None"
  | PyBool true => "True"
  | PyBool false => "False"
  | PyInt z => pretty z
  | PyStr s => s
  end.

(** [c.upper()] on one ASCII letter; other bytes are left as they are. *)
Definition upper_ascii (c : ascii) : ascii :=
  let n := N_of_ascii c in
  if ((97 <=? n) && (n <=? 122))%N then ascii_of_N (n - 32) else c.

(** [s.upper()]. *)
Fixpoint upper (s : string) : string :=
  match s with
  | EmptyString => EmptyString
  | String c s' => String (upper_ascii c) (upper s')
  end.

(** [x in (a, b, ...)] for text. *)
Definition str_in (s : string) (l : list string) : bool :=
  bool_decide (s ∈ l).

(** ** [parser.normalize_team_name] (parser.py, lines 53-64) *)

Definition CT_NAMES : list string :=
  ["CT"; "COUNTERTERRORIST"; "COUNTER-TERRORIST"; "3"].
Definition T_NAMES : list string :=
  ["T"; "TERRORIST"; "TERRORISTS"; "2"].

Definition normalize_team_name (team_name : PyVal) : PyVal :=
  if negb (truthy team_name) then PyNone
  else
    let team_str := upper (py_str team_name) in
    if str_in team_str CT_NAMES then PyStr "CT"
    else if str_in team_str T_NAMES then PyStr "T"
    else PyNone.

(** [v in ("CT", "T")]. *)
Definition is_CT_or_T (v : PyVal) : bool :=
  bool_decide (v = PyStr "CT" ∨ v = PyStr "T").

(** ** Results of calls that may raise *)

(** A call either returns or raises; an exception is kept as the text that
    [str(e)] gives for it. *)
Inductive Exc (A : Type) :=
  | Returns (a : A)
  | Raises (msg : string).
Arguments Returns {A} a.
Arguments Raises {A} msg.

(** ** The interfaces of the supplied libraries *)

(** pandas, as far as [_parse] uses it on the [player_death] tables: the
    code only chains library calls on them (parser.py, lines 179-198). *)
Class Pandas := {
  DataFrame : Type;
  (** [df.empty] *)
  df_empty : DataFrame → bool;
  (** [pd.DataFrame()] *)
  df_new : DataFrame;
  (** [pd.DataFrame(columns=cols)] *)
  df_with_columns : list string → DataFrame;
  (** [all(c in df.columns for c in cols)] *)
  df_has_columns : DataFrame → list string → bool;
  (** [df.rename(columns={"X": "user_X", "Y": "user_Y"})] *)
  df_rename_XY_to_user : DataFrame → DataFrame;
  (** [df['weapon'].value_counts().reset_index()] with the columns
      renamed to [weapon], [count] *)
  df_weapon_counts : DataFrame → DataFrame;
  (** [df.rename(columns={'user_X': 'X', 'user_Y': 'Y'})] *)
  df_rename_user_to_XY : DataFrame → DataFrame;
  (** [df[['user_name', 'X', 'Y']].dropna(subset=['X', 'Y'])] *)
  df_name_XY_dropna : DataFrame → DataFrame
}.

(** ** The normalised demo data (parser.py, lines 102-110) *)

Abbreviation Header := (gmap string PyVal).

(** One entry of [self.footsteps]: the tuple [(ix, xx, yy, pname, norm_team)]. *)
Record Footstep := {
  fs_idx : Z;
  fs_x : Q;
  fs_y : Q;
  fs_player : PyVal;
  fs_team : PyVal
}.

(** One entry of [self.rounds]: [{"winner": ..., "round_num": ...}]. *)
Record Round := {
  winner : PyVal;
  round_num : Z
}.

(** The table [parse_ticks] returns, column by column, as the code reads it
    with [ticks_df.get(col, default).values]; an absent column is [None]. *)
Record TicksDF := {
  tk_index : list Z;
  tk_X : option (list (option Q));
  tk_Y : option (list (option Q));
  tk_player : option (list PyVal);
  tk_name : option (list PyVal);
  tk_team : option (list PyVal);
  tk_team_name : option (list PyVal)
}.

(** A row of the [round_end] event table, read with [row.get]. *)
Record RoundEndRow := {
  re_winner : PyVal;
  re_total_rounds_played : option Z
}.

(** A row of the table [parse_player_info] returns. *)
Record PlayerInfoRow := {
  pi_name : PyVal;
  pi_team_number : PyVal
}.

Section data.
Context {pandas : Pandas}.

(** The decoder opened on one demo file ([DemoParser(self.file)]): what
    each of the queries [_parse] makes returns for that file. [None] is
    the Python [None] that a query may return instead of a table. *)
Record DemoParser := {
  parse_header : Exc Header;
  (** [parse_event("player_death", player=["X","Y"], other=["tick", ...])] *)
  parse_event_player_death_weapons : Exc (option DataFrame);
  (** [parse_event("player_death", player=["X","Y"], other=["total_rounds_played"])] *)
  parse_event_player_death : Exc (option DataFrame);
  parse_ticks : Exc (option TicksDF);
  (** [parse_event("round_end", other=["winner", "total_rounds_played"])] *)
  parse_event_round_end : Exc (option (list RoundEndRow));
  parse_player_info : Exc (option (list PlayerInfoRow))
}.

(** The dictionary that is pickled and kept in the in-process cache
    ([stored_data], [loaded_data], [cached]). A key that is missing from
    the dictionary is [None]; the last two values may themselves be the
    Python [None]. *)
Record CacheDict := {
  sd_header : option Header;
  sd_footsteps : option (list Footstep);
  sd_rounds : option (list Round);
  sd_players : option (list PyVal);
  sd_player_teams : option (gmap PyVal PyVal);
  sd_player_deaths : option (option DataFrame);
  sd_weapon_popularity : option (option DataFrame)
}.

(** The attributes of a [DemoFileParser] instance. [weapons] is only
    assigned by a fresh parse. *)
Record DemoFileParser := {
  file : string;
  header : Header;
  footsteps : list Footstep;
  rounds : list Round;
  players : gset PyVal;
  player_teams : gmap PyVal PyVal;
  player_deaths : option DataFrame;
  weapon_popularity : option DataFrame;
  weapons : option DataFrame
}.
End data.

(** pickle: [pickle.dump] turns the dictionary into the bytes of the
    artifact, [pickle.load] reads bytes back and raises ([None]) on bytes
    that are no pickle of such a dictionary. *)
Class Pickle {pandas : Pandas} := {
  blob : Type;
  (** [os.path.getsize] of a file with this content *)
  blob_size : blob → N;
  pickle_dump : CacheDict → blob;
  pickle_load : blob → option CacheDict
}.

(** What the pickle documentation promises: loading a dump gives the
    dumped object back. *)
Definition PickleRoundTrip {pandas : Pandas} {pickle : Pickle} : Prop :=
  ∀ d : CacheDict, pickle_load (pickle_dump d) = Some d.

Section world.
Context {pandas : Pandas} {pickle : Pickle}.

(** A file of the cache folder. [f_removable], [f_readable] and
    [f_writable] say whether [os.remove], [open(.., "rb")] and
    [open(.., "wb")] succeed on it. *)
Record DiskFile := {
  f_content : blob;
  f_mtime : Z;
  f_removable : bool;
  f_readable : bool;
  f_writable : bool
}.

(** [os.path.getsize(fp)] *)
Definition getsize (f : DiskFile) : Z := Z.of_N (blob_size (f_content f)).

(** Everything outside the instance that [_parse] reads or writes: the
    module-level [demoDataCache] (the dictionary that stands in when
    [QCache] cannot be imported), the files under [CACHE_FOLDER] by path,
    whether a new file can be created there, the clock that stamps a
    written file, and the decoder over the demo files. *)
Record World := {
  demoDataCache : gmap string CacheDict;
  cache_folder : gmap string DiskFile;
  can_create : bool;
  now : Z;
  open_demo : string → Exc DemoParser
}.
End world.

(** ** Cache paths (parser.py, lines 45 and 66-69) *)

(** [CACHE_FOLDER], relative to the working directory of the process. *)
Definition CACHE_FOLDER : string := "dem_cache".

(** [os.path.join(a, b)] for a relative [b]. *)
Definition path_join (a b : string) : string := a +:+ "/" +:+ b.

Definition is_sep (c : ascii) : bool :=
  bool_decide (c = "/"%char ∨ c = "\"%char).

(** [os.path.basename]: what follows the last separator. *)
Fixpoint basename (p : string) : string :=
  match p with
  | EmptyString => EmptyString
  | String c p' =>
      if existsb is_sep (list_ascii_of_string p') then basename p'
      else if is_sep c then p' else p
  end.

(** The class [[a-zA-Z0-9_.-]]. *)
Definition is_safe_char (c : ascii) : bool :=
  let n := N_of_ascii c in
  (((97 <=? n) && (n <=? 122)) || ((65 <=? n) && (n <=? 90))
   || ((48 <=? n) && (n <=? 57))
   || (n =? 95) || (n =? 46) || (n =? 45))%N.

(** [re.sub(r"[^a-zA-Z0-9_.-]+", "_", s)]: every maximal run of characters
    outside the class becomes one underscore. [in_run] says that the
    previous character was already replaced. *)
Fixpoint re_sub_unsafe (in_run : bool) (s : string) : string :=
  match s with
  | EmptyString => EmptyString
  | String c s' =>
      if is_safe_char c then String c (re_sub_unsafe false s')
      else if in_run then re_sub_unsafe true s'
      else String "_"%char (re_sub_unsafe true s')
  end.

Definition external_cache_path (demo_path : string) : string :=
  let base := basename demo_path in
  let safe_name := re_sub_unsafe false base in
  path_join CACHE_FOLDER ("demcache_" +:+ safe_name +:+ ".pkl").

(** ** [sorted(files, key=mtime)]

    Python's [sorted] is stable: insertion in front of the first element
    whose key is not smaller keeps equal keys in their original order. *)

Section sorted.
Context {A : Type} (key : A → Z).

Fixpoint insert_by_key (x : A) (l : list A) : list A :=
  match l with
  | [] => [x]
  | y :: l' =>
      if (key x <=? key y)%Z then x :: y :: l' else y :: insert_by_key x l'
  end.

Fixpoint sorted_by_key (l : list A) : list A :=
  match l with
  | [] => []
  | x :: l' => insert_by_key x (sorted_by_key l')
  end.
End sorted.

(** ** [parser.check_cache_folder_size] (parser.py, lines 71-93) *)

Section budget.
Context {pandas : Pandas} {pickle : Pickle}.

(** [2 * 1024 * 1024 * 1024], the default of [max_size_bytes]. *)
Definition DEFAULT_MAX_SIZE : Z := 2 * 1024 * 1024 * 1024.

(** The sum the first loop accumulates over the files of the folder. *)
Definition total_size_of (files : list (string * DiskFile)) : Z :=
  foldr (λ f acc, getsize f.2 + acc) 0 files.

(** The removal loop over [files_sorted], carrying [total_size] and the
    folder: it stops as soon as the total is within the limit, and a
    removal that raises leaves both the folder and the total as they
    are. *)
Fixpoint remove_oldest (max_size_bytes : Z) (files_sorted : list (string * DiskFile))
    (total_size : Z) (folder : gmap string DiskFile) : Z * gmap string DiskFile :=
  match files_sorted with
  | [] => (total_size, folder)
  | (fp, f) :: rest =>
      if (total_size <=? max_size_bytes)%Z then (total_size, folder)
      else if f_removable f then
        remove_oldest max_size_bytes rest (total_size - getsize f) (delete fp folder)
      else remove_oldest max_size_bytes rest total_size folder
  end.

(** The function on a listing of the folder (what [os.walk] yields, in
    the order it yields it). *)
Definition check_cache_folder_size_on (max_size_bytes : Z)
    (files : list (string * DiskFile)) (folder : gmap string DiskFile)
    : gmap string DiskFile :=
  let total_size := total_size_of files in
  if (total_size >? max_size_bytes)%Z then
    let files_sorted := sorted_by_key (λ x, f_mtime x.2) files in
    (remove_oldest max_size_bytes files_sorted total_size folder).2
  else folder.

Definition check_cache_folder_size (max_size_bytes : Z)
    (folder : gmap string DiskFile) : gmap string DiskFile :=
  check_cache_folder_size_on max_size_bytes (map_to_list folder) folder.
End budget.

(** ** [parser.DemoFileParser] (parser.py, lines 97-284) *)

Section parser.
Context {pandas : Pandas} {pickle : Pickle}.

(** Attribute assignments [self.x = v]. *)
Definition set_header (v : Header) (self : DemoFileParser) : DemoFileParser :=
  {| file := file self; header := v; footsteps := footsteps self;
     rounds := rounds self; players := players self;
     player_teams := player_teams self; player_deaths := player_deaths self;
     weapon_popularity := weapon_popularity self; weapons := weapons self |}.
Definition set_footsteps (v : list Footstep) (self : DemoFileParser) : DemoFileParser :=
  {| file := file self; header := header self; footsteps := v;
     rounds := rounds self; players := players self;
     player_teams := player_teams self; player_deaths := player_deaths self;
     weapon_popularity := weapon_popularity self; weapons := weapons self |}.
Definition set_rounds (v : list Round) (self : DemoFileParser) : DemoFileParser :=
  {| file := file self; header := header self; footsteps := footsteps self;
     rounds := v; players := players self;
     player_teams := player_teams self; player_deaths := player_deaths self;
     weapon_popularity := weapon_popularity self; weapons := weapons self |}.
Definition set_players (v : gset PyVal) (self : DemoFileParser) : DemoFileParser :=
  {| file := file self; header := header self; footsteps := footsteps self;
     rounds := rounds self; players := v;
     player_teams := player_teams self; player_deaths := player_deaths self;
     weapon_popularity := weapon_popularity self; weapons := weapons self |}.
Definition set_player_teams (v : gmap PyVal PyVal) (self : DemoFileParser) : DemoFileParser :=
  {| file := file self; header := header self; footsteps := footsteps self;
     rounds := rounds self; players := players self;
     player_teams := v; player_deaths := player_deaths self;
     weapon_popularity := weapon_popularity self; weapons := weapons self |}.
Definition set_player_deaths (v : option DataFrame) (self : DemoFileParser) : DemoFileParser :=
  {| file := file self; header := header self; footsteps := footsteps self;
     rounds := rounds self; players := players self;
     player_teams := player_teams self; player_deaths := v;
     weapon_popularity := weapon_popularity self; weapons := weapons self |}.
Definition set_weapon_popularity (v : option DataFrame) (self : DemoFileParser) : DemoFileParser :=
  {| file := file self; header := header self; footsteps := footsteps self;
     rounds := rounds self; players := players self;
     player_teams := player_teams self; player_deaths := player_deaths self;
     weapon_popularity := v; weapons := weapons self |}.
Definition set_weapons (v : option DataFrame) (self : DemoFileParser) : DemoFileParser :=
  {| file := file self; header := header self; footsteps := footsteps self;
     rounds := rounds self; players := players self;
     player_teams := player_teams self; player_deaths := player_deaths self;
     weapon_popularity := weapon_popularity self; weapons := v |}.

(** The attributes [__init__] sets before it calls [_parse] (lines
    103-110); [path] is taken as already absolute. *)
Definition new_instance (path : string) : DemoFileParser :=
  {| file := path; header := ∅; footsteps := []; rounds := [];
     players := ∅; player_teams := ∅; player_deaths := None;
     weapon_popularity := None; weapons := None |}.

(** [d.get(key, default)] on a key that may be missing. *)
Definition get_or {A} (o : option A) (d : A) : A :=
  match o with Some a => a | None => d end.

(** The seven assignments both loaders make from a cached dictionary
    (lines 117-123 and 136-142, 147-153). Subscripting a missing key
    raises [KeyError] after the assignments before it have been made. *)
Inductive Assigned :=
  | AllAssigned (self : DemoFileParser)
  | MissingKey (key : string) (self : DemoFileParser).

Definition assign_from (d : CacheDict) (self : DemoFileParser) : Assigned :=
  match sd_header d with
  | None => MissingKey "header" self
  | Some h =>
      let self := set_header h self in
      match sd_footsteps d with
      | None => MissingKey "footsteps" self
      | Some fs =>
          let self := set_footsteps fs self in
          let self := set_rounds (get_or (sd_rounds d) []) self in
          let self := set_players (list_to_set (get_or (sd_players d) [])) self in
          let self := set_player_teams (get_or (sd_player_teams d) ∅) self in
          let self := set_player_deaths (get_or (sd_player_deaths d) None) self in
          let self := set_weapon_popularity (get_or (sd_weapon_popularity d) None) self in
          AllAssigned self
      end
  end.

Definition set_demoDataCache (v : gmap string CacheDict) (w : World) : World :=
  {| demoDataCache := v; cache_folder := cache_folder w;
     can_create := can_create w; now := now w; open_demo := open_demo w |}.
Definition set_cache_folder (v : gmap string DiskFile) (w : World) : World :=
  {| demoDataCache := demoDataCache w; cache_folder := v;
     can_create := can_create w; now := now w; open_demo := open_demo w |}.

(** [_load_from_cache] (lines 113-130): every exception inside the [try]
    (the file cannot be opened, [pickle.load] raises, a key is missing)
    gives [False]. *)
Definition _load_from_cache (cache_file : string) (self : DemoFileParser) (w : World)
    : bool * DemoFileParser * World :=
  match cache_folder w !! cache_file with
  | None => (false, self, w)
  | Some f =>
      if negb (f_readable f) then (false, self, w)
      else
        match pickle_load (f_content f) with
        | None => (false, self, w)
        | Some loaded_data =>
            match assign_from loaded_data self with
            | MissingKey _ self => (false, self, w)
            | AllAssigned self =>
                (true, self,
                 set_demoDataCache (<[file self := loaded_data]> (demoDataCache w)) w)
            end
        end
  end.

(** [_load_from_memory_cache] (lines 132-155), on the dictionary. *)
Definition _load_from_memory_cache (self : DemoFileParser) (w : World)
    : Exc (bool * DemoFileParser) :=
  match demoDataCache w !! file self with
  | Some cached =>
      match assign_from cached self with
      | AllAssigned self => Returns (true, self)
      | MissingKey key _ => Raises ("'" +:+ key +:+ "'")
      end
  | None => Returns (false, self)
  end.
End parser.

Section fresh_parse.
Context {pandas : Pandas} {pickle : Pickle}.

(** *** Header (lines 167-171) *)
Definition read_header (parser : DemoParser) : Header :=
  match parse_header parser with
  | Returns h => h
  | Raises _ => ∅
  end.

(** *** Player deaths and weapons (lines 173-198) *)
Definition read_weapons (weapons_df : option DataFrame) (self : DemoFileParser)
    : DemoFileParser :=
  match weapons_df with
  | Some df =>
      if negb (df_empty df) then
        let df := df_rename_XY_to_user df in
        let self := set_weapons (Some df) self in
        set_weapon_popularity (Some (df_weapon_counts df)) self
      else
        let self := set_weapons (Some df_new) self in
        set_weapon_popularity (Some (df_with_columns ["weapon"; "count"])) self
  | None =>
      let self := set_weapons (Some df_new) self in
      set_weapon_popularity (Some (df_with_columns ["weapon"; "count"])) self
  end.

Definition read_player_deaths (event_df : option DataFrame) (self : DemoFileParser)
    : DemoFileParser :=
  let self := set_player_deaths (Some (df_with_columns ["user_name"; "X"; "Y"])) self in
  match event_df with
  | Some df =>
      if negb (df_empty df) then
        if df_has_columns df ["user_X"; "user_Y"] then
          let deaths_df := df_rename_user_to_XY df in
          set_player_deaths (Some (df_name_XY_dropna deaths_df)) self
        else if df_has_columns df ["X"; "Y"] then
          set_player_deaths (Some (df_name_XY_dropna df)) self
        else self
      else self
  | None => self
  end.

(** *** Footsteps, players, teams (lines 200-220) *)
Definition read_ticks (parser : DemoParser) : option TicksDF :=
  match parse_ticks parser with
  | Returns t => t
  | Raises _ => None
  end.

(** [ticks_df.empty] *)
Definition tk_empty (t : TicksDF) : bool :=
  match tk_index t with [] => true | _ => false end.

(** The five arrays, zipped. *)
Definition tick_rows (t : TicksDF)
    : list (Z * (option Q * (option Q * (PyVal * PyVal)))) :=
  let idx_array := tk_index t in
  let n := length idx_array in
  let x_array := get_or (tk_X t) (replicate n None) in
  let y_array := get_or (tk_Y t) (replicate n None) in
  let player_array :=
    get_or (tk_player t) (get_or (tk_name t) (replicate n PyNone)) in
  let team_array :=
    get_or (tk_team t) (get_or (tk_team_name t) (replicate n PyNone)) in
  zip idx_array (zip x_array (zip y_array (zip player_array team_array))).

Definition footstep_step (self : DemoFileParser)
    (row : Z * (option Q * (option Q * (PyVal * PyVal)))) : DemoFileParser :=
  let '(ix, (xx, (yy, (pname, tname)))) := row in
  match xx, yy with
  | Some x, Some y =>
      let norm_team := normalize_team_name tname in
      let step := {| fs_idx := ix; fs_x := x; fs_y := y;
                     fs_player := pname; fs_team := norm_team |} in
      let self := set_footsteps (footsteps self ++ [step]) self in
      if truthy pname then
        let self := set_players ({[pname]} ∪ players self) self in
        if is_CT_or_T norm_team then
          set_player_teams (<[pname := norm_team]> (player_teams self)) self
        else self
      else self
  | _, _ => self
  end.

Definition read_footsteps (ticks_df : option TicksDF) (self : DemoFileParser)
    : DemoFileParser :=
  let self := set_footsteps [] self in
  match ticks_df with
  | Some t =>
      if negb (tk_empty t) then foldl footstep_step self (tick_rows t) else self
  | None => self
  end.

(** *** Rounds and winners (lines 222-237) *)
Definition round_step (self : DemoFileParser) (row : RoundEndRow) : DemoFileParser :=
  let winner_norm := normalize_team_name (re_winner row) in
  match re_total_rounds_played row with
  | Some n =>
      if is_CT_or_T winner_norm then
        set_rounds (rounds self ++ [{| winner := winner_norm; round_num := n |}]) self
      else self
  | None => self
  end.

Definition read_rounds (round_end_df : option (list RoundEndRow))
    (self : DemoFileParser) : DemoFileParser :=
  match round_end_df with
  | Some (r :: rows) => foldl round_step self (r :: rows)
  | _ => self
  end.

(** *** Player-team assignments (lines 239-252) *)
Definition player_info_step (self : DemoFileParser) (row : PlayerInfoRow)
    : DemoFileParser :=
  let name := pi_name row in
  let team_num := pi_team_number row in
  if truthy name && truthy team_num then
    let team :=
      if bool_decide (team_num = PyInt 3) then PyStr "CT"
      else if bool_decide (team_num = PyInt 2) then PyStr "T"
      else PyNone in
    if truthy team then
      let self := set_player_teams (<[name := team]> (player_teams self)) self in
      set_players ({[name]} ∪ players self) self
    else self
  else self.

Definition read_player_info (parser : DemoParser) (self : DemoFileParser)
    : DemoFileParser :=
  match parse_player_info parser with
  | Returns (Some (r :: rows)) => foldl player_info_step self (r :: rows)
  | _ => self
  end.

(** *** Fallback: teams from the ticks (lines 254-262) *)

(** [a or b] *)
Definition py_or (a b : PyVal) : PyVal := if truthy a then a else b.

(** [row.get(col)] on row [i]. *)
Definition row_get (col : option (list PyVal)) (i : nat) : PyVal :=
  match col with
  | Some l => default PyNone (l !! i)
  | None => PyNone
  end.

Definition fallback_step (t : TicksDF) (self : DemoFileParser) (i : nat)
    : DemoFileParser :=
  let pname := py_or (row_get (tk_player t) i) (row_get (tk_name t) i) in
  let tname := py_or (row_get (tk_team t) i) (row_get (tk_team_name t) i) in
  let norm_team := normalize_team_name tname in
  if truthy pname && is_CT_or_T norm_team then
    let self := set_player_teams (<[pname := norm_team]> (player_teams self)) self in
    set_players ({[pname]} ∪ players self) self
  else self.

Definition fallback_teams (ticks_df : option TicksDF) (self : DemoFileParser)
    : DemoFileParser :=
  match ticks_df with
  | Some t =>
      if bool_decide (player_teams self = ∅) && negb (tk_empty t) then
        foldl (fallback_step t) self (seq 0 (length (tk_index t)))
      else self
  | None => self
  end.

(** *** Store to cache (lines 264-284) *)
Definition stored_data_of (self : DemoFileParser) : CacheDict :=
  {| sd_header := Some (header self);
     sd_footsteps := Some (footsteps self);
     sd_rounds := Some (rounds self);
     sd_players := Some (elements (players self));
     sd_player_teams := Some (player_teams self);
     sd_player_deaths := Some (player_deaths self);
     sd_weapon_popularity := Some (weapon_popularity self) |}.

(** [with open(cache_file, "wb") as f: pickle.dump(stored_data, f)] inside
    its [try]: when the file cannot be opened for writing nothing
    changes. *)
Definition write_artifact (cache_file : string) (stored_data : CacheDict)
    (w : World) : World :=
  match cache_folder w !! cache_file with
  | Some f =>
      if f_writable f then
        let f' := {| f_content := pickle_dump stored_data; f_mtime := now w;
                     f_removable := f_removable f; f_readable := f_readable f;
                     f_writable := true |} in
        set_cache_folder (<[cache_file := f']> (cache_folder w)) w
      else w
  | None =>
      if can_create w then
        let f' := {| f_content := pickle_dump stored_data; f_mtime := now w;
                     f_removable := true; f_readable := true;
                     f_writable := true |} in
        set_cache_folder (<[cache_file := f']> (cache_folder w)) w
      else w
  end.

Definition store_to_cache (cache_file : string) (self : DemoFileParser)
    (w : World) : World :=
  let stored_data := stored_data_of self in
  let w := set_demoDataCache (<[file self := stored_data]> (demoDataCache w)) w in
  let w := set_cache_folder
             (check_cache_folder_size DEFAULT_MAX_SIZE (cache_folder w)) w in
  write_artifact cache_file stored_data w.

(** *** The part of [_parse] after both cache tiers missed (lines 166-284) *)
Definition parse_fresh (cache_file : string) (self : DemoFileParser) (w : World)
    : Exc DemoFileParser * World :=
  match open_demo w (file self) with
  | Raises e => (Raises e, w)
  | Returns parser =>
      let self := set_header (read_header parser) self in
      match parse_event_player_death_weapons parser with
      | Raises e => (Raises e, w)
      | Returns weapons_df =>
          let self := read_weapons weapons_df self in
          match parse_event_player_death parser with
          | Raises e => (Raises e, w)
          | Returns event_df =>
              let self := read_player_deaths event_df self in
              let ticks_df := read_ticks parser in
              let self := read_footsteps ticks_df self in
              let self := set_rounds [] self in
              match parse_event_round_end parser with
              | Raises e => (Raises e, w)
              | Returns round_end_df =>
                  let self := read_rounds round_end_df self in
                  let self := read_player_info parser self in
                  let self := fallback_teams ticks_df self in
                  (Returns self, store_to_cache cache_file self w)
              end
          end
      end
  end.

(** *** [_parse] (lines 157-284) *)
Definition _parse (self : DemoFileParser) (w : World)
    : Exc DemoFileParser * World :=
  let cache_file := external_cache_path (file self) in
  (* Try disk cache *)
  let '(hit, self, w) :=
    match cache_folder w !! cache_file with
    | Some _ => _load_from_cache cache_file self w
    | None => (false, self, w)
    end in
  if hit then (Returns self, w)
  else
    (* Try in-memory cache *)
    match _load_from_memory_cache self w with
    | Raises e => (Raises e, w)
    | Returns (true, self) => (Returns self, w)
    | Returns (false, self) => parse_fresh cache_file self w
    end.

(** [DemoFileParser(path)] *)
Definition DemoFileParser_new (path : string) (w : World)
    : Exc DemoFileParser * World :=
  _parse (new_instance path) w.
End fresh_parse.

(** ** [actions.DemoViewerActions.open_dem] and [parser.DemHeaderParseThread]

    What the dialog shows and the callbacks it makes are kept as a log next
    to the list [loaded]. *)

Section actions.
Context {pandas : Pandas} {pickle : Pickle}.

(** An entry of [loaded]. *)
Record LoadedDemo := {
  ld_file : string;
  ld_map : PyVal;
  ld_addons : PyVal;
  ld_enabled : bool;
  ld_parser : DemoFileParser
}.

Inductive UiEvent :=
  | Warning (title text : string)
  | LoadMap (mname addon : PyVal)
  | AddMap (mname : PyVal)
  | SetCurrentMap (mname : PyVal)
  | AddDemItem (name : string).

Record Gui := {
  loaded : list LoadedDemo;
  events : list UiEvent
}.

Definition emit (e : list UiEvent) (g : Gui) : Gui :=
  {| loaded := loaded g; events := events g ++ e |}.

Definition newline : string := String (ascii_of_nat 10) EmptyString.

(** One turn of the loop of [DemHeaderParseThread.run] (parser.py, lines
    299-310): the arguments of the [file_parsed] signal. *)
Definition run_file (path : string) (w : World) : (string * Header * string) * World :=
  match DemoFileParser_new path w with
  | (Returns dp, w) => ((path, header dp, ""), w)
  | (Raises e, w) => ((path, ∅, e), w)
  end.

(** [on_parsed(f, hdr, err)] (actions.py, lines 59-92); [canceled] is
    what [prog.wasCanceled()] answers. *)
Definition on_parsed (canceled : bool) (f : string) (hdr : Header) (err : string)
    (g : Gui) (w : World) : Gui * World :=
  if canceled then (g, w)
  else
    let name := basename f in
    if truthy (PyStr err) then
      (emit [Warning "Parse Error"
               ("Error in '" +:+ name +:+ "':" +:+ newline +:+ err)] g, w)
    else
      let mname := default (PyStr "") (hdr !! "map_name") in
      let addon := default (PyStr "") (hdr !! "addons") in
      if negb (truthy mname) then
        (emit [Warning "Invalid DEM" ("No map_name in '" +:+ name +:+ "'.")] g, w)
      else
        let g :=
          match loaded g with
          | [] => emit [LoadMap mname addon; AddMap mname; SetCurrentMap mname] g
          | _ => g
          end in
        match DemoFileParser_new f w with
        | (Raises e, w) =>
            (emit [Warning "Parser Error"
                     ("Could not parse '" +:+ name +:+ "':" +:+ newline +:+ e)] g, w)
        | (Returns dp, w) =>
            let entry := {| ld_file := f; ld_map := mname; ld_addons := addon;
                            ld_enabled := true; ld_parser := dp |} in
            (emit [AddDemItem name; AddMap mname]
               {| loaded := loaded g ++ [entry]; events := events g |}, w)
        end.

(** A file going through the thread and then through [on_parsed]. *)
Definition open_file (canceled : bool) (path : string) (g : Gui) (w : World)
    : Gui * World :=
  let '((f, hdr, err), w) := run_file path w in
  on_parsed canceled f hdr err g w.
End actions.

(** ** [window.HeatmapWindow.apply_downsampling] (window.py, lines 306-311)

    numpy computes [linspace] in binary64; here the same formulas are
    evaluated on exact rationals. *)

Local Open Scope Q_scope.

(** [np.linspace(start, stop, num=num, dtype=int)], following numpy's
    [linspace]: [arange(0, num) * step + start] with [step = delta / div],
    the last sample set to [stop], and [floor] before the cast. *)
Definition linspace_int (start stop : Z) (num : Z) : list Z :=
  let div := (num - 1)%Z in
  let delta := inject_Z stop - inject_Z start in
  let y := inject_Z <$> seqZ 0 num in
  let y :=
    if (0 <? div)%Z then
      let step := delta / inject_Z div in
      if Qeq_bool step 0 then (λ v, v / inject_Z div * delta) <$> y
      else (λ v, v * step) <$> y
    else (λ v, v * delta) <$> y in
  let y := (λ v, v + inject_Z start) <$> y in
  let y := if (1 <? num)%Z then <[pred (length y) := inject_Z stop]> y else y in
  Qfloor <$> y.

Local Close Scope Q_scope.

(** [l[i]]: a negative index counts from the end, an index out of range
    raises [IndexError] ([None]). *)
Definition py_getitem {A} (l : list A) (i : Z) : option A :=
  let len := Z.of_nat (length l) in
  if (0 <=? i)%Z then l !! Z.to_nat i
  else if (0 <=? len + i)%Z then l !! Z.to_nat (len + i)
  else None.

(** [apply_downsampling]; [None] is the [IndexError] of the comprehension. *)
Definition apply_downsampling {A} (downsample_n : Z) (footsteps : list A)
    : option (list A) :=
  let n := Z.max 1 downsample_n in
  let len := Z.of_nat (length footsteps) in
  if (n <=? 1)%Z || (len <=? 1)%Z then Some footsteps
  else
    let idxs := linspace_int 0 (len - 1) (len / n) in
    mapM (py_getitem footsteps) idxs.

(** ** [heatmap.heatmap_to_qimage] (heatmap.py, lines 15-45) and the end of
    [window.HeatmapWindow.update_heatmap] (window.py, lines 402-413)

    Grid values are float32 in the code and exact rationals here. *)

(** The numeric libraries the renderer calls. *)
Class RenderLibs := {
  (** [x ** gamma] *)
  np_power : Q → Q → Q;
  (** [scipy.ndimage.gaussian_filter(grid, sigma)] *)
  gaussian_filter : list (list Q) → Q → list (list Q);
  (** [colormaps.get_cmap(name)], [None] when it raises; a colormap gives
      the red, green and blue bytes of a value in [0, 1] *)
  get_cmap : string → option (Q → Z * Z * Z);
  (** [colormaps.get_cmap("jet")] *)
  jet_cmap : Q → Z * Z * Z
}.

Record RGBA := {
  red : Z;
  green : Z;
  blue : Z;
  alpha : Z
}.

(** A [QImage]; [QImage(w, h, format)] leaves its pixels uninitialised
    ([None]). *)
Record QImage := {
  qi_width : nat;
  qi_height : nat;
  qi_pixels : option (list (list RGBA))
}.

Section heatmap.
Context {libs : RenderLibs}.

(** [data.max()], [data.min()] on a grid that has an element. *)
Definition grid_max (data : list (list Q)) : Q :=
  match concat data with
  | [] => 0%Q
  | x :: l => foldl Qmax x l
  end.
Definition grid_min (data : list (list Q)) : Q :=
  match concat data with
  | [] => 0%Q
  | x :: l => foldl Qmin x l
  end.

Definition grid_map (f : Q → Q) (data : list (list Q)) : list (list Q) :=
  map (map f) data.

(** Lines 25-31: the normalised grid. *)
Definition normalized (data : list (list Q)) (gamma : Q) : list (list Q) :=
  let vmax := grid_max data in
  let vmin := grid_min data in
  if negb (Qle_bool vmax vmin) then
    let norm := grid_map (λ v, (v - vmin) / (vmax - vmin))%Q data in
    grid_map (λ v, np_power v gamma) norm
  else grid_map (λ _, 0%Q) data.

(** Lines 33-34: brightness, contrast and [np.clip(norm, 0, 1)]. *)
Definition adjust (brightness contrast : Q) (v : Q) : Q :=
  let v := (contrast * (v - (1 # 2)) + (1 # 2) + brightness)%Q in
  Qmin 1 (Qmax v 0).

(** Lines 40-42: the colour of a value and [alpha = (norm * 255).astype(uint8)]
    on a value in [0, 1]. *)
Definition pixel_of (cmap_obj : Q → Z * Z * Z) (v : Q) : RGBA :=
  let '(r, g, b) := cmap_obj v in
  {| red := r; green := g; blue := b; alpha := Qfloor (v * 255) |}.

Definition heatmap_to_qimage (data : list (list Q)) (cmap : string)
    (gamma brightness contrast : Q) : QImage :=
  match concat data with
  | [] => {| qi_width := 1; qi_height := 1; qi_pixels := None |}
  | _ =>
      let data := reverse data in
      let norm := normalized data gamma in
      let norm := grid_map (adjust brightness contrast) norm in
      let cmap_obj :=
        match get_cmap cmap with
        | Some c => c
        | None => jet_cmap
        end in
      let rgba := map (map (pixel_of cmap_obj)) norm in
      {| qi_width := length (default [] (head rgba));
         qi_height := length rgba;
         qi_pixels := Some rgba |}
  end.

(** Lines 402-413 of [update_heatmap]: blur when sigma is positive, then
    colour. *)
Definition blur (raw_heat : list (list Q)) (cur_sigma : Q) : list (list Q) :=
  if negb (Qle_bool cur_sigma 0) then gaussian_filter raw_heat cur_sigma
  else raw_heat.

Definition render_heat (raw_heat : list (list Q)) (cur_sigma : Q)
    (cur_colormap : string) (cmap_gamma brightness contrast : Q) : QImage :=
  let raw_heat := blur raw_heat cur_sigma in
  heatmap_to_qimage raw_heat cur_colormap cmap_gamma brightness contrast.

(** Every pixel of the image has alpha 0. *)
Definition fully_transparent (img : QImage) : Prop :=
  ∃ px, qi_pixels img = Some px ∧ Forall (Forall (λ p, alpha p = 0%Z)) px.

(** All values of the grid are equal, and there is at least one. *)
Definition flat (data : list (list Q)) : Prop :=
  concat data ≠ [] ∧ ∃ c, Forall (λ v, v == c)%Q (concat data).
End heatmap.

(** Stand-ins for the numeric libraries, to evaluate the renderer on
    examples: no colormap is registered, so every name falls back to
    [jet_cmap], here plain black; the blur leaves the grid as it is. *)
Definition plain_libs : RenderLibs :=
  {| np_power := λ x _, x;
     gaussian_filter := λ g _, g;
     get_cmap := λ _, None;
     jet_cmap := λ _, (0, 0, 0)%Z |}.

(** ** The recognised team codes

    The codes the specification lists: the number 3 and the spellings of
    the counter-terrorist side, the number 2 and the spellings of the
    terrorist side, text compared without regard to case. *)

Definition recognised_CT (v : PyVal) : Prop :=
  v = PyInt 3 ∨ ∃ s, v = PyStr s ∧ upper s ∈ CT_NAMES.

Definition recognised_T (v : PyVal) : Prop :=
  v = PyInt 2 ∨ ∃ s, v = PyStr s ∧ upper s ∈ T_NAMES.

(** The characters of a printed integer. *)
Definition is_num_char (c : ascii) : bool :=
  let n := N_of_ascii c in
  (((48 <=? n) && (n <=? 57)) || (n =? 45))%N.

Fixpoint all_num (s : string) : bool :=
  match s with
  | EmptyString => true
  | String c s' => is_num_char c && all_num s'
  end.

(** ** Index selections the specification speaks of *)

(** The [i]-th of [k] indices spread linearly over [0, L-1]:
    [floor(i * (L-1) / (k-1))], and the single index 0 when [k] is 1. *)
Definition evenly_spaced_index (L k i : Z) : Z :=
  if (k <=? 1)%Z then 0%Z else (i * (L - 1) / (k - 1))%Z.

(** The slice [l[::n]], every [n]-th element; [skip] counts down to the
    next element that is kept. *)
Fixpoint every_nth_from {A} (n skip : nat) (l : list A) : list A :=
  match l with
  | [] => []
  | x :: l' =>
      match skip with
      | O => x :: every_nth_from n (pred n) l'
      | S k => every_nth_from n k l'
      end
  end.

Definition every_nth {A} (n : nat) (l : list A) : list A := every_nth_from n 0 l.

(** ** What the removal loop leaves behind *)

Section budget_spec.
Context {pandas : Pandas} {pickle : Pickle}.

(** The total size of the files of the folder. *)
Definition folder_size (folder : gmap string DiskFile) : Z :=
  total_size_of (map_to_list folder).

(** The entries the loop of [check_cache_folder_size] removes, in the
    order it removes them. *)
Fixpoint removed_oldest (max_size_bytes : Z) (files_sorted : list (string * DiskFile))
    (total_size : Z) : list (string * DiskFile) :=
  match files_sorted with
  | [] => []
  | (fp, f) :: rest =>
      if (total_size <=? max_size_bytes)%Z then []
      else if f_removable f then
        (fp, f) :: removed_oldest max_size_bytes rest (total_size - getsize f)
      else removed_oldest max_size_bytes rest total_size
  end.

(** How many entries the loop looks at before it stops. *)
Fixpoint visited (max_size_bytes : Z) (files_sorted : list (string * DiskFile))
    (total_size : Z) : nat :=
  match files_sorted with
  | [] => O
  | (fp, f) :: rest =>
      if (total_size <=? max_size_bytes)%Z then O
      else if f_removable f then
        S (visited max_size_bytes rest (total_size - getsize f))
      else S (visited max_size_bytes rest total_size)
  end.

(** The files of a listing on which [os.remove] succeeds. *)
Definition removable (files : list (string * DiskFile)) : list (string * DiskFile) :=
  filter (λ x, f_removable x.2 = true) files.

(** [files_sorted] of [check_cache_folder_size]. *)
Definition by_mtime (folder : gmap string DiskFile) : list (string * DiskFile) :=
  sorted_by_key (λ x, f_mtime x.2) (map_to_list folder).
End budget_spec.

(** ** Stand-ins for pandas and pickle, to evaluate the parser on examples *)

(** A table is the list of its rows as text; the column operations leave
    it as it is. *)
Definition plain_pandas : Pandas :=
  {| DataFrame := list string;
     df_empty := λ d, match d with [] => true | _ => false end;
     df_new := [];
     df_with_columns := λ _, [];
     df_has_columns := λ _ _, true;
     df_rename_XY_to_user := λ d, d;
     df_weapon_counts := λ d, d;
     df_rename_user_to_XY := λ d, d;
     df_name_XY_dropna := λ d, d |}.

(** A blob is its length together with the dictionary it is a pickle of,
    if it is one. *)
Definition plain_pickle : @Pickle plain_pandas :=
  {| blob := N * option (@CacheDict plain_pandas);
     blob_size := fst;
     pickle_dump := λ d, (N.of_nat (length (get_or (sd_footsteps d) [])) + 1, Some d)%N;
     pickle_load := snd |}.

Definition plain_blob (n : N) (d : option (@CacheDict plain_pandas))
    : @blob plain_pandas plain_pickle := (n, d).

(** A folder of two artifacts of 10 bytes: the older one cannot be
    removed (it is held open by another process), the newer one can. *)
Definition held_artifact : @DiskFile plain_pandas plain_pickle :=
  {| f_content := plain_blob 10 None; f_mtime := 1; f_removable := false;
     f_readable := true; f_writable := false |}.
Definition free_artifact : @DiskFile plain_pandas plain_pickle :=
  {| f_content := plain_blob 10 None; f_mtime := 2; f_removable := true;
     f_readable := true; f_writable := true |}.
Definition two_artifacts : gmap string (@DiskFile plain_pandas plain_pickle) :=
  {[ "dem_cache/demcache_a.dem.pkl" := held_artifact;
     "dem_cache/demcache_b.dem.pkl" := free_artifact ]}.

(** ** The two cache tiers, as the properties speak of them *)

Section tiers.
Context {pandas : Pandas} {pickle : Pickle}.

(** What the on-disk tier holds for a cache file: the dictionary of a
    file that is there, can be read, unpickles, and has the two keys the
    loader subscripts. *)
Definition disk_artifact (cache_file : string) (w : World) : option CacheDict :=
  match cache_folder w !! cache_file with
  | Some f =>
      if f_readable f then
        match pickle_load (f_content f) with
        | Some d =>
            match sd_header d, sd_footsteps d with
            | Some _, Some _ => Some d
            | _, _ => None
            end
        | None => None
        end
      else None
  | None => None
  end.

(** The on-disk artifact is there but corrupted or unreadable. *)
Definition disk_corrupt (cache_file : string) (w : World) : Prop :=
  is_Some (cache_folder w !! cache_file) ∧ disk_artifact cache_file w = None.

(** Two instances hold the same demo: the seven attributes that make up
    the normalised demo are equal. *)
Definition same_demo (a b : DemoFileParser) : Prop :=
  header a = header b
  ∧ footsteps a = footsteps b
  ∧ rounds a = rounds b
  ∧ players a = players b
  ∧ player_teams a = player_teams b
  ∧ player_deaths a = player_deaths b
  ∧ weapon_popularity a = weapon_popularity b.

(** The lookup in the order the specification gives: the in-process tier
    first, the on-disk tier second, a disk hit populating the in-process
    tier. *)
Definition get_memory_first (self : DemoFileParser) (w : World)
    : option (DemoFileParser * World) :=
  match demoDataCache w !! file self with
  | Some cached =>
      match assign_from cached self with
      | AllAssigned self => Some (self, w)
      | MissingKey _ _ => None
      end
  | None =>
      match _load_from_cache (external_cache_path (file self)) self w with
      | (true, self, w) => Some (self, w)
      | (false, _, _) => None
      end
  end.

(** The header has no usable map identifier: the decoder could not read
    it, or it has no [map_name], or an empty one. *)
Definition no_map_name (hdr : Header) : Prop :=
  truthy (default (PyStr "") (hdr !! "map_name")) = false.

Definition header_unusable (parser : DemoParser) : Prop :=
  match parse_header parser with
  | Raises _ => True
  | Returns hdr => no_map_name hdr
  end.
End tiers.

(** ** Example worlds *)

Definition dust2_header : Header := {[ "map_name" := PyStr "de_dust2" ]}.
Definition mirage_header : Header := {[ "map_name" := PyStr "de_mirage" ]}.

(** The dictionary of a demo that has this header and nothing else. *)
Definition dict_of (hdr : Header) : @CacheDict plain_pandas :=
  {| sd_header := Some hdr; sd_footsteps := Some []; sd_rounds := Some [];
     sd_players := Some []; sd_player_teams := Some ∅;
     sd_player_deaths := Some None; sd_weapon_popularity := Some None |}.

(** A decoder whose queries all return and have no rows; [hdr] is what
    [parse_header] does. *)
Definition quiet_decoder (hdr : Exc Header) : @DemoParser plain_pandas :=
  {| parse_header := hdr;
     parse_event_player_death_weapons := Returns None;
     parse_event_player_death := Returns None;
     parse_ticks := Returns None;
     parse_event_round_end := Returns None;
     parse_player_info := Returns None |}.

Definition world_of (mem : gmap string (@CacheDict plain_pandas))
    (folder : gmap string (@DiskFile plain_pandas plain_pickle))
    (decoder : Exc (@DemoParser plain_pandas)) : @World plain_pandas plain_pickle :=
  {| demoDataCache := mem; cache_folder := folder; can_create := true;
     now := 100; open_demo := λ _, decoder |}.

Definition demo_path : string := "/demos/match.dem".

(** An artifact with this content that can be read, written and removed. *)
Definition artifact (content : @blob plain_pandas plain_pickle)
    : @DiskFile plain_pandas plain_pickle :=
  {| f_content := content; f_mtime := 5; f_removable := true;
     f_readable := true; f_writable := true |}.

(** Both tiers hold the demo, under different headers; the demo file
    itself is gone. *)
Definition both_tiers_world : @World plain_pandas plain_pickle :=
  world_of {[ demo_path := dict_of dust2_header ]}
           {[ external_cache_path demo_path
                := artifact (plain_blob 1 (Some (dict_of mirage_header))) ]}
           (Raises "No such file").

(** The artifact of the demo is no pickle; the in-process cache holds the
    demo; the demo file itself is gone. *)
Definition corrupt_with_memory_world : @World plain_pandas plain_pickle :=
  world_of {[ demo_path := dict_of dust2_header ]}
           {[ external_cache_path demo_path := artifact (plain_blob 3 None) ]}
           (Raises "No such file").

(** The artifact of the demo is no pickle, the in-process cache is empty
    and the demo file decodes. *)
Definition corrupt_world : @World plain_pandas plain_pickle :=
  world_of ∅
           {[ external_cache_path demo_path := artifact (plain_blob 3 None) ]}
           (Returns (quiet_decoder (Returns dust2_header))).

(** Nothing is cached and the header of the demo file cannot be read. *)
Definition headerless_world : @World plain_pandas plain_pickle :=
  world_of ∅ ∅ (Returns (quiet_decoder (Raises "bad header"))).

(** Nothing is cached for the demo; the folder holds another artifact
    whose size is exactly the default limit. *)
Definition full_world : @World plain_pandas plain_pickle :=
  world_of ∅
           {[ "dem_cache/demcache_other.dem.pkl"
                := artifact (plain_blob (Z.to_N DEFAULT_MAX_SIZE) None) ]}
           (Returns (quiet_decoder (Returns dust2_header))).

(** Two instances stand for the same file and have the same header. *)
Definition same_id {pandas : Pandas} (self1 self2 : DemoFileParser) : Prop :=
  file self1 = file self2 ∧ header self1 = header self2.

(** ** More of the cache path *)

(** Every character of the text is in the class [[a-zA-Z0-9_.-]]. *)
Fixpoint all_safe (s : string) : bool :=
  match s with
  | EmptyString => true
  | String c s' => is_safe_char c && all_safe s'
  end.

(** ** The in-process cache, as the loaders need it *)

(** Every dictionary of the in-process cache has the two keys the loaders
    subscript. *)
Definition mem_wf {pandas : Pandas} {pickle : Pickle} (w : World) : Prop :=
  ∀ k c, demoDataCache w !! k = Some c →
    is_Some (sd_header c) ∧ is_Some (sd_footsteps c).

(** A folder of two artifacts of 10 bytes that can both be removed. *)
Definition older_artifact : @DiskFile plain_pandas plain_pickle :=
  {| f_content := plain_blob 10 None; f_mtime := 1; f_removable := true;
     f_readable := true; f_writable := true |}.
Definition two_free_artifacts : gmap string (@DiskFile plain_pandas plain_pickle) :=
  {[ "dem_cache/demcache_a.dem.pkl" := older_artifact;
     "dem_cache/demcache_b.dem.pkl" := free_artifact ]}.

(** ** [actions.DemoViewerActions.clear_cache] (actions.py, lines 16-36) *)

(** [s] without the prefix [p], when it has that prefix. *)
Fixpoint strip_prefix (p s : string) : option string :=
  match p with
  | EmptyString => Some s
  | String c p' =>
      match s with
      | EmptyString => None
      | String d s' => if Ascii.eqb c d then strip_prefix p' s' else None
      end
  end.

(** [path] is one of [glob.glob(os.path.join(dir, "*"))]: an entry directly
    in [dir] whose name does not start with a dot. *)
Definition glob_star (dir path : string) : bool :=
  match strip_prefix (dir +:+ "/") path with
  | Some (String c name) =>
      negb (Ascii.eqb c ".")
      && negb (existsb is_sep (list_ascii_of_string (String c name)))
  | _ => false
  end.

Section clear.
Context {pandas : Pandas} {pickle : Pickle}.

(** The loop over the matches, each [os.remove] in its own [try], and then
    [demoDataCache.clear()]; the message box that follows is not part of
    the world. *)
Definition clear_cache (w : World) : World :=
  let matches :=
    filter (λ x, glob_star CACHE_FOLDER x.1 = true) (map_to_list (cache_folder w)) in
  let folder :=
    foldl (λ m x, if f_removable x.2 then delete x.1 m else m) (cache_folder w) matches in
  set_demoDataCache ∅ (set_cache_folder folder w).
End clear.

(** ** What a fresh parse yields *)

(** A normalised team: ['CT'] or ['T']. *)
Definition is_team (v : PyVal) : Prop := v = PyStr "CT" ∨ v = PyStr "T".

Section parsed.
Context {pandas : Pandas}.

(** The player attributes fit together: every team is normalised and
    belongs to a known player, and every player name is a true value. *)
Definition players_wf (self : DemoFileParser) : Prop :=
  (∀ k v, player_teams self !! k = Some v → is_team v ∧ k ∈ players self)
  ∧ (∀ k, k ∈ players self → truthy k = true).

(** The whole demo is well formed: footsteps carry a normalised team or
    none, rounds a normalised winner, and the player attributes fit. *)
Definition demo_wf (self : DemoFileParser) : Prop :=
  Forall (λ fs, is_team (fs_team fs) ∨ fs_team fs = PyNone) (footsteps self)
  ∧ Forall (λ r, is_team (winner r)) (rounds self)
  ∧ players_wf self.

(** The footstep a tick row gives, if it has a position. *)
Definition step_of_row (row : Z * (option Q * (option Q * (PyVal * PyVal))))
    : option Footstep :=
  let '(ix, (xx, (yy, (pname, tname)))) := row in
  match xx, yy with
  | Some x, Some y =>
      Some {| fs_idx := ix; fs_x := x; fs_y := y; fs_player := pname;
              fs_team := normalize_team_name tname |}
  | _, _ => None
  end.

(** The round a [round_end] row gives, if it has a round number and a
    recognised winner. *)
Definition round_of_row (row : RoundEndRow) : option Round :=
  match re_total_rounds_played row with
  | Some n =>
      if is_CT_or_T (normalize_team_name (re_winner row)) then
        Some {| winner := normalize_team_name (re_winner row); round_num := n |}
      else None
  | None => None
  end.

(** The assignment a roster row makes, if any. *)
Definition roster_entry (row : PlayerInfoRow) : option (PyVal * PyVal) :=
  if truthy (pi_name row) && truthy (pi_team_number row) then
    if bool_decide (pi_team_number row = PyInt 3) then Some (pi_name row, PyStr "CT")
    else if bool_decide (pi_team_number row = PyInt 2) then Some (pi_name row, PyStr "T")
    else None
  else None.

(** The team the last roster row for [name] assigns. *)
Definition roster_team (rows : list PlayerInfoRow) (name : PyVal) : option PyVal :=
  foldl (λ acc row,
           match roster_entry row with
           | Some (n, t) => if decide (n = name) then Some t else acc
           | None => acc
           end) None rows.

(** The rows of the roster table that the loop of lines 243-250 visits. *)
Definition roster_rows (parser : DemoParser) : list PlayerInfoRow :=
  match parse_player_info parser with
  | Returns (Some rows) => rows
  | _ => []
  end.
End parsed.

(** A decoder with three tick rows (the second without a position), two
    round ends (the second without a winner) and a roster of two rows. *)
Definition busy_ticks : TicksDF :=
  {| tk_index := [10; 11; 12];
     tk_X := Some [Some (1 # 1); None; Some (3 # 1)]%Q;
     tk_Y := Some [Some (5 # 1); Some (6 # 1); Some (7 # 1)]%Q;
     tk_player := None;
     tk_name := Some [PyStr "ann"; PyStr "bob"; PyStr "ann"];
     tk_team := None;
     tk_team_name := Some [PyStr "CT"; PyStr "TERRORIST"; PyStr "Spectator"] |}.

Definition busy_decoder : @DemoParser plain_pandas :=
  {| parse_header := Returns dust2_header;
     parse_event_player_death_weapons := Returns None;
     parse_event_player_death := Returns None;
     parse_ticks := Returns (Some busy_ticks);
     parse_event_round_end :=
       Returns (Some [ {| re_winner := PyInt 3; re_total_rounds_played := Some 1 |};
                       {| re_winner := PyNone; re_total_rounds_played := Some 2 |} ]);
     parse_player_info :=
       Returns (Some [ {| pi_name := PyStr "ann"; pi_team_number := PyInt 2 |};
                       {| pi_name := PyStr "cat"; pi_team_number := PyInt 3 |} ]) |}.

(** Nothing is cached and the demo file decodes to [busy_decoder]. *)
Definition busy_world : @World plain_pandas plain_pickle :=
  world_of ∅ ∅ (Returns busy_decoder).

(* ===================================================================== *)
(** * Properties *)
(* ===================================================================== *)

Local Open Scope Z_scope.

(** ** Team normalisation *)

Lemma upper_ascii_num c : is_num_char c = true → upper_ascii c = c.
Proof.
  destruct c as [[] [] [] [] [] [] [] []]; vm_compute; congruence.
Qed.

Lemma upper_all_num s : all_num s = true → upper s = s.
Proof.
  induction s as [|c s IH]; simpl; [done|].
  intros [Hc Hs]%andb_prop. by rewrite upper_ascii_num, IH.
Qed.

Lemma pretty_N_char_num d : is_num_char (pretty_N_char d) = true.
Proof. unfold pretty_N_char. by repeat case_match. Qed.

Lemma pretty_N_go_num x s : all_num s = true → all_num (pretty_N_go x s) = true.
Proof.
  revert s. induction (N.lt_wf_0 x) as [x _ IH]; intros s Hs.
  destruct (decide (x = 0)%N) as [->|Hx]; [by rewrite pretty_N_go_0|].
  rewrite pretty_N_go_step by lia.
  apply IH; [apply N.div_lt; lia|]. simpl. by rewrite pretty_N_char_num.
Qed.

Lemma pretty_Z_num (z : Z) : all_num (pretty z) = true.
Proof.
  destruct z as [|p|p]; [done|..]; unfold pretty, pretty_Z, pretty, pretty_positive,
    pretty, pretty_N; simpl.
  - by apply pretty_N_go_num.
  - by apply pretty_N_go_num.
Qed.

Lemma str_in_spec s l : str_in s l = true ↔ s ∈ l.
Proof. unfold str_in. apply bool_decide_eq_true. Qed.

Lemma pretty_Z_not_text (z : Z) (s : string) : all_num s = false → pretty z ≠ s.
Proof. intros Hs Hz. pose proof (pretty_Z_num z) as Hn. congruence. Qed.

Lemma normalize_int z :
  normalize_team_name (PyInt z) =
    if decide (z = 3) then PyStr "CT" else if decide (z = 2) then PyStr "T" else PyNone.
Proof.
  unfold normalize_team_name. cbn [truthy py_str].
  destruct (Z.eqb_spec z 0) as [->|Hz]; [done|]. cbn [negb].
  rewrite (upper_all_num _ (pretty_Z_num z)).
  destruct (decide (z = 3)) as [->|]; [done|].
  destruct (decide (z = 2)) as [->|]; [done|].
  unfold str_in, CT_NAMES, T_NAMES.
  rewrite !bool_decide_eq_false_2; [done|..];
    rewrite !elem_of_cons, elem_of_nil;
    intros [Hm|[Hm|[Hm|[Hm|[]]]]];
    try (by apply pretty_Z_not_text in Hm);
    [assert (z = 2) by (apply (inj pretty); exact Hm)
    |assert (z = 3) by (apply (inj pretty); exact Hm)]; done.
Qed.

Lemma normalize_str s :
  normalize_team_name (PyStr s) =
    if decide (upper s ∈ CT_NAMES) then PyStr "CT"
    else if decide (upper s ∈ T_NAMES) then PyStr "T" else PyNone.
Proof.
  unfold normalize_team_name. cbn [truthy py_str].
  destruct (String.eqb_spec s "") as [->|Hs]; [done|]. cbn [negb].
  unfold str_in.
  destruct (decide (upper s ∈ CT_NAMES)) as [Hc|Hc].
  - by rewrite bool_decide_eq_true_2.
  - rewrite bool_decide_eq_false_2 by done.
    destruct (decide (upper s ∈ T_NAMES)) as [Ht|Ht].
    + by rewrite bool_decide_eq_true_2.
    + by rewrite bool_decide_eq_false_2.
Qed.

Lemma normalize_other v :
  v = PyNone ∨ (∃ b, v = PyBool b) → normalize_team_name v = PyNone.
Proof. by intros [->|[[] ->]]. Qed.

Lemma names_disjoint s : s ∈ CT_NAMES → s ∈ T_NAMES → False.
Proof.
  unfold CT_NAMES, T_NAMES. rewrite !elem_of_cons, !elem_of_nil.
  intros [->|[->|[->|[->|[]]]]] [?|[?|[?|[?|[]]]]]; discriminate.
Qed.


(** ** Downsampling *)

Lemma Qfloor_mul_div (i stop d : Z) :
  (0 < d)%Z →
  Qfloor (inject_Z i * ((inject_Z stop - inject_Z 0) / inject_Z d) + inject_Z 0)
  = (i * stop / d)%Z.
Proof.
  intros Hd. rewrite Zdiv_Qdiv. apply Qfloor_comp.
  rewrite inject_Z_mult. unfold Qdiv. change (inject_Z 0) with 0%Q. ring.
Qed.

Lemma Qfloor_div_mul (i stop d : Z) :
  (0 < d)%Z →
  Qfloor (inject_Z i / inject_Z d * (inject_Z stop - inject_Z 0) + inject_Z 0)
  = (i * stop / d)%Z.
Proof.
  intros Hd. rewrite Zdiv_Qdiv. apply Qfloor_comp.
  rewrite inject_Z_mult. unfold Qdiv. change (inject_Z 0) with 0%Q. ring.
Qed.

Lemma linspace_int_length (stop num : Z) :
  (0 ≤ num)%Z → Z.of_nat (length (linspace_int 0 stop num)) = num.
Proof.
  intros Hn. unfold linspace_int.
  rewrite length_fmap.
  assert (Hlen : ∀ y : list Q,
    length (if (1 <? num)%Z then <[pred (length y) := inject_Z stop]> y else y)
    = length y).
  { intros y. destruct (1 <? num)%Z; [apply length_insert|done]. }
  rewrite Hlen, length_fmap.
  destruct (0 <? num - 1)%Z; [destruct (Qeq_bool _ _)|];
    rewrite !length_fmap, length_seqZ; lia.
Qed.
Lemma linspace_int_lookup (stop num : Z) (i : nat) :
  2 ≤ num → (i < Z.to_nat num)%nat →
  linspace_int 0 stop num !! i = Some (Z.of_nat i * stop / (num - 1)).
Proof.
  intros Hnum Hi. unfold linspace_int.
  assert (H1 : (1 <? num) = true) by (apply Z.ltb_lt; lia).
  assert (H0 : (0 <? num - 1) = true) by (apply Z.ltb_lt; lia).
  rewrite H1, H0.
  set (y := (λ v : Q, (v + inject_Z 0)%Q) <$> _).
  assert (Hy : ∀ j : nat, (j < Z.to_nat num)%nat →
     Qfloor <$> (y !! j) = Some (Z.of_nat j * stop / (num - 1))).
  { intros j Hj. unfold y.
    destruct (Qeq_bool _ _).
    - rewrite !list_lookup_fmap, lookup_seqZ_lt by lia. simpl.
      f_equal. rewrite Z.add_0_l. apply Qfloor_div_mul. lia.
    - rewrite !list_lookup_fmap, lookup_seqZ_lt by lia. simpl.
      f_equal. rewrite Z.add_0_l. apply Qfloor_mul_div. lia. }
  assert (Hlen : length y = Z.to_nat num).
  { unfold y. destruct (Qeq_bool _ _); rewrite !length_fmap, length_seqZ; lia. }
  rewrite list_lookup_fmap.
  destruct (decide (i = pred (length y))) as [->|Hne].
  - rewrite list_lookup_insert_eq by lia.
    change (Qfloor <$> Some (inject_Z stop)) with (Some (Qfloor (inject_Z stop))).
    rewrite Qfloor_Z.
    f_equal. rewrite Hlen.
    replace (Z.of_nat (pred (Z.to_nat num))) with (num - 1) by lia.
    rewrite Z.mul_comm, Z.div_mul; lia.
  - rewrite list_lookup_insert_ne by done. by apply Hy.
Qed.

Lemma linspace_int_evenly (L k : Z) (i : nat) :
  0 ≤ k → (i < Z.to_nat k)%nat →
  linspace_int 0 (L - 1) k !! i = Some (evenly_spaced_index L k (Z.of_nat i)).
Proof.
  intros Hk Hi. unfold evenly_spaced_index.
  destruct (Z.leb_spec k 1) as [Hle|Hgt].
  - assert (k = 1) as -> by lia.
    destruct i as [|i]; [|lia]. vm_compute. reflexivity.
  - by apply linspace_int_lookup; [lia|].
Qed.

Lemma evenly_spaced_index_range (L k i : Z) :
  1 ≤ L → k ≤ L → 0 ≤ i < k → 0 ≤ evenly_spaced_index L k i ≤ L - 1.
Proof.
  intros HL Hk Hi. unfold evenly_spaced_index.
  destruct (Z.leb_spec k 1); [lia|].
  split.
  - apply Z.div_pos; nia.
  - apply Z.div_le_upper_bound; nia.
Qed.

Lemma evenly_spaced_index_step (L k i : Z) :
  2 ≤ k → k ≤ L → 0 ≤ i →
  (L - 1) / (k - 1)
    ≤ evenly_spaced_index L k (i + 1) - evenly_spaced_index L k i
    ≤ (L - 1) / (k - 1) + 1.
Proof.
  intros Hk HL Hi. unfold evenly_spaced_index.
  destruct (Z.leb_spec k 1); [lia|].
  set (d := k - 1). set (b := L - 1). set (a := i * b).
  replace ((i + 1) * b) with (a + b) by (unfold a; ring).
  assert (Hd : 0 < d) by (unfold d; lia).
  pose proof (Z.div_mod a d ltac:(lia)) as Ha.
  pose proof (Z.div_mod b d ltac:(lia)) as Hb.
  pose proof (Z.div_mod (a + b) d ltac:(lia)) as Hab.
  pose proof (Z.mod_pos_bound a d Hd) as Hra.
  pose proof (Z.mod_pos_bound b d Hd) as Hrb.
  pose proof (Z.mod_pos_bound (a + b) d Hd) as Hrab.
  generalize dependent (a mod d). generalize dependent (b mod d).
  generalize dependent ((a + b) mod d).
  generalize dependent (a / d). generalize dependent (b / d).
  generalize dependent ((a + b) / d).
  intros qab qb qa rab Hab Hrab rb Hb Hrb ra Ha Hra.
  assert (d * (qab - qa - qb) = ra + rb - rab) by lia.
  split; nia.
Qed.



(** C9. When the stride [N] is larger than the number [L > 1] of
    footsteps, [floor(L/N)] is 0 and the downsampling returns the empty
    list although its input is not empty. *)
Theorem apply_downsampling_short_is_empty {A} (footsteps : list A) (N : Z) :
  let L := Z.of_nat (length footsteps) in
  1 < L → L < N →
  footsteps ≠ [] ∧ L / N = 0 ∧ apply_downsampling N footsteps = Some [].
Proof.
  intros L HL HN.
  assert (Hk : L / N = 0) by (apply Z.div_small; lia).
  split_and!; [by destruct footsteps|done|].
  unfold apply_downsampling. fold L.
  rewrite Z.max_r by lia.
  destruct (Z.leb_spec N 1); [lia|]. destruct (Z.leb_spec L 1); [lia|].
  cbn [orb]. rewrite Hk. reflexivity.
Qed.

(** C9, at two footsteps and stride 3. *)
Lemma apply_downsampling_short_is_empty_witness :
  apply_downsampling 3 [PyInt 7; PyInt 8] = Some [].
Proof.
  apply (apply_downsampling_short_is_empty [PyInt 7; PyInt 8] 3);
    vm_compute; reflexivity.
Defined.

(** ** Rendering a flat grid *)

Section flat_grid.
Context {libs : RenderLibs}.

Lemma foldl_Qmax_const (c x : Q) (l : list Q) :
  (x == c)%Q → Forall (λ v, v == c)%Q l → (foldl Qmax x l == c)%Q.
Proof.
  revert x. induction l as [|y l IH]; intros x Hx Hl; [done|].
  apply Forall_cons in Hl as [Hy Hl]. simpl. apply IH; [|done].
  destruct (Q.max_dec x y) as [->| ->]; done.
Qed.

Lemma foldl_Qmin_const (c x : Q) (l : list Q) :
  (x == c)%Q → Forall (λ v, v == c)%Q l → (foldl Qmin x l == c)%Q.
Proof.
  revert x. induction l as [|y l IH]; intros x Hx Hl; [done|].
  apply Forall_cons in Hl as [Hy Hl]. simpl. apply IH; [|done].
  destruct (Q.min_dec x y) as [->| ->]; done.
Qed.

Lemma concat_reverse_Permutation {A} (data : list (list A)) :
  concat (reverse data) ≡ₚ concat data.
Proof. by rewrite reverse_Permutation. Qed.

Lemma flat_reverse data : flat data → flat (reverse data).
Proof.
  intros [Hne [c Hc]]. split.
  - intros Hnil. apply Hne. apply Permutation_nil_r.
    by rewrite <- Hnil, concat_reverse_Permutation.
  - exists c. by rewrite concat_reverse_Permutation.
Qed.

Lemma flat_max_min data : flat data → Qle_bool (grid_max data) (grid_min data) = true.
Proof.
  intros [Hne [c Hc]]. apply Qle_bool_iff.
  unfold grid_max, grid_min. destruct (concat data) as [|x l]; [done|].
  apply Forall_cons in Hc as [Hx Hl].
  rewrite foldl_Qmax_const, foldl_Qmin_const by done. apply Qle_refl.
Qed.

(** On a flat grid the [vmax > vmin] test fails and [norm] is all zero. *)
Lemma normalized_flat data gamma :
  flat data → normalized data gamma = grid_map (λ _, 0%Q) data.
Proof. intros Hf. unfold normalized. by rewrite flat_max_min. Qed.

Lemma pixel_of_alpha cmap_obj v : alpha (pixel_of cmap_obj v) = Qfloor (v * 255).
Proof. unfold pixel_of. by destruct (cmap_obj v) as [[r g] b]. Qed.

Lemma heatmap_to_qimage_flat data cmap gamma brightness contrast :
  flat data →
  ∃ px, qi_pixels (heatmap_to_qimage data cmap gamma brightness contrast) = Some px
    ∧ concat px ≠ []
    ∧ Forall (Forall (λ p, alpha p = Qfloor (adjust brightness contrast 0 * 255))) px.
Proof.
  intros Hf. unfold heatmap_to_qimage.
  destruct (concat data) as [|x l] eqn:Hc; [by destruct Hf|].
  rewrite normalized_flat by by apply flat_reverse.
  eexists. split; [reflexivity|]. unfold grid_map. split.
  - rewrite <- !concat_map. intros Hnil.
    do 3 apply map_eq_nil in Hnil.
    destruct (flat_reverse data Hf) as [Hne _]. done.
  - rewrite !map_map. apply Forall_fmap, Forall_true. intros row. simpl.
    rewrite !map_map. apply Forall_fmap, Forall_true. intros v. simpl.
    apply pixel_of_alpha.
Qed.

End flat_grid.



(** ** The stable sort *)

Section sorted_facts.
Context {A : Type} (key : A → Z).

Lemma insert_by_key_Permutation x l : insert_by_key key x l ≡ₚ x :: l.
Proof.
  induction l as [|y l IH]; simpl; [done|].
  destruct (key x <=? key y); [done|]. rewrite IH. apply Permutation_swap.
Qed.

Lemma sorted_by_key_Permutation l : sorted_by_key key l ≡ₚ l.
Proof.
  induction l as [|x l IH]; simpl; [done|].
  by rewrite insert_by_key_Permutation, IH.
Qed.

Lemma insert_by_key_sorted x l :
  StronglySorted (λ a b, key a ≤ key b) l →
  StronglySorted (λ a b, key a ≤ key b) (insert_by_key key x l).
Proof.
  induction 1 as [|y l Hl IH Hy]; simpl.
  - repeat constructor.
  - destruct (Z.leb_spec (key x) (key y)).
    + constructor; [by constructor|]. constructor; [done|].
      eapply Forall_impl; [exact Hy|]. simpl. lia.
    + constructor; [done|].
      rewrite insert_by_key_Permutation. constructor; [lia|done].
Qed.

Lemma sorted_by_key_sorted l :
  StronglySorted (λ a b, key a ≤ key b) (sorted_by_key key l).
Proof.
  induction l as [|x l IH]; simpl; [constructor|]. by apply insert_by_key_sorted.
Qed.
End sorted_facts.

(** ** The disk budget *)

Section budget_facts.
Context {pandas : Pandas} {pickle : Pickle}.
Implicit Types (folder : gmap string DiskFile) (files : list (string * DiskFile)).

Lemma getsize_nonneg (f : DiskFile) : 0 ≤ getsize f.
Proof. unfold getsize. lia. Qed.

Lemma total_size_of_nonneg files : 0 ≤ total_size_of files.
Proof.
  induction files as [|[fp f] l IH]; simpl; [done|].
  pose proof (getsize_nonneg f). lia.
Qed.

Lemma total_size_of_app l1 l2 :
  total_size_of (l1 ++ l2) = total_size_of l1 + total_size_of l2.
Proof. induction l1 as [|[fp f] l1 IH]; simpl; lia. Qed.

Global Instance total_size_of_Permutation : Proper ((≡ₚ) ==> (=)) total_size_of.
Proof.
  intros l1 l2 Hp. induction Hp as [|x l1 l2 _ IH|x y l|l1 l2 l3 _ IH1 _ IH2];
    simpl; lia.
Qed.

Lemma total_size_of_sublist l1 l2 :
  sublist l1 l2 → total_size_of l1 ≤ total_size_of l2.
Proof.
  induction 1 as [|[fp f] l1 l2 _ IH|[fp f] l1 l2 _ IH]; simpl;
    [done|lia|pose proof (getsize_nonneg f); lia].
Qed.

Lemma sublist_removable del files :
  sublist del files → Forall (λ x, f_removable x.2 = true) del →
  sublist del (removable files).
Proof.
  unfold removable. induction 1 as [|x l1 l2 _ IH|x l1 l2 _ IH]; intros Hall.
  - constructor.
  - apply Forall_cons in Hall as [Hx Hall].
    rewrite filter_cons_True by done. constructor. by apply IH.
  - destruct (decide (f_removable x.2 = true)).
    + rewrite filter_cons_True by done. constructor. by apply IH.
    + rewrite filter_cons_False by done. by apply IH.
Qed.

(** The loop removes the removable entries among those it visits. *)
Lemma removed_oldest_visited B files t :
  removed_oldest B files t = removable (take (visited B files t) files).
Proof.
  unfold removable. revert t. induction files as [|[fp f] l IH]; intros t; simpl; [done|].
  destruct (t <=? B); [done|].
  destruct (f_removable f) eqn:Hr; simpl.
  - rewrite filter_cons_True by done. by rewrite IH.
  - rewrite filter_cons_False by (simpl; congruence). by rewrite IH.
Qed.

Lemma visited_le B files t : (visited B files t ≤ length files)%nat.
Proof.
  revert t. induction files as [|[fp f] l IH]; intros t; simpl; [done|].
  destruct (t <=? B); [lia|].
  destruct (f_removable f); [specialize (IH (t - getsize f))|specialize (IH t)]; lia.
Qed.

(** It stops at the first point where the running total is within the
    limit, or at the end of the listing. *)
Lemma visited_stops B files t :
  t - total_size_of (removed_oldest B files t) ≤ B
  ∨ visited B files t = length files.
Proof.
  revert t. induction files as [|[fp f] l IH]; intros t; simpl; [by right|].
  destruct (Z.leb_spec t B); [left; simpl; lia|].
  destruct (f_removable f); simpl.
  - destruct (IH (t - getsize f)) as [?|?]; [left; lia|right; lia].
  - destruct (IH t) as [?|?]; [by left|right; lia].
Qed.

Lemma visited_shortest B files t j :
  (j < visited B files t)%nat →
  B < t - total_size_of (removable (take j files)).
Proof.
  unfold removable. revert t j. induction files as [|[fp f] l IH]; intros t j; simpl; [lia|].
  destruct (Z.leb_spec t B); [lia|].
  destruct j as [|j]; [simpl; lia|]. simpl.
  destruct (f_removable f) eqn:Hr; intros Hj.
  - rewrite filter_cons_True by done. simpl.
    specialize (IH (t - getsize f) j ltac:(lia)). lia.
  - rewrite filter_cons_False by (simpl; congruence).
    apply IH. lia.
Qed.

(** The folder after the loop: the removed entries are gone, the total
    the loop carries is the size that is left. *)
Lemma remove_oldest_spec B files t folder :
  remove_oldest B files t folder
  = (t - total_size_of (removed_oldest B files t),
     foldl (λ m x, delete x.1 m) folder (removed_oldest B files t)).
Proof.
  revert t folder. induction files as [|[fp f] l IH]; intros t folder; simpl.
  - f_equal. lia.
  - destruct (t <=? B); [simpl; f_equal; lia|].
    destruct (f_removable f); simpl; rewrite IH; [f_equal; lia|done].
Qed.

Lemma lookup_foldl_delete folder (gone : list (string * DiskFile)) fp :
  foldl (λ m x, delete x.1 m) folder gone !! fp
  = if decide (fp ∈ gone.*1) then None else folder !! fp.
Proof.
  revert folder. induction gone as [|[fp' f] gone IH]; intros folder.
  - destruct (decide (fp ∈ ([] : list (string * DiskFile)).*1)) as [Hin|_]; [|done].
    by apply elem_of_nil in Hin.
  - cbn [foldl fst]. rewrite IH. rewrite fmap_cons. cbn [fst].
    destruct (decide (fp ∈ gone.*1)) as [Hin|Hin];
      destruct (decide (fp ∈ fp' :: gone.*1)) as [Hin'|Hin']; try done.
    + exfalso. apply Hin'. by right.
    + apply elem_of_cons in Hin' as [->|?]; [|done]. apply lookup_delete_eq.
    + apply lookup_delete_ne. intros ->. apply Hin'. by left.
Qed.

Lemma folder_size_foldl_delete folder (gone : list (string * DiskFile)) :
  NoDup gone.*1 → Forall (λ x, folder !! x.1 = Some x.2) gone →
  folder_size (foldl (λ m x, delete x.1 m) folder gone)
  = folder_size folder - total_size_of gone.
Proof.
  revert folder. induction gone as [|[fp f] gone IH]; intros folder Hnd Hall; simpl.
  - lia.
  - apply NoDup_cons in Hnd as [Hfp Hnd]. apply Forall_cons in Hall as [Hf Hall].
    simpl in *. rewrite IH; [|done|].
    + unfold folder_size. rewrite <- (map_to_list_delete folder fp f Hf). simpl. lia.
    + rewrite Forall_forall in Hall |- *. intros x Hx.
      rewrite lookup_delete_ne; [by apply Hall|].
      intros ->. apply Hfp. by apply list_elem_of_fmap_2.
Qed.

Lemma removable_sublist files : sublist (removable files) files.
Proof. apply sublist_filter. Qed.

Lemma sublist_NoDup_fst (l1 l2 : list (string * DiskFile)) :
  sublist l1 l2 → NoDup l2.*1 → NoDup l1.*1.
Proof.
  intros Hs Hnd. eapply sublist_NoDup; [exact Hnd|by apply fmap_sublist].
Qed.

Lemma by_mtime_Permutation folder : by_mtime folder ≡ₚ map_to_list folder.
Proof. apply sorted_by_key_Permutation. Qed.

Lemma by_mtime_lookup folder x : x ∈ by_mtime folder → folder !! x.1 = Some x.2.
Proof.
  rewrite by_mtime_Permutation. destruct x as [fp f]. by rewrite elem_of_map_to_list.
Qed.

Lemma by_mtime_NoDup folder : NoDup (by_mtime folder).*1.
Proof. rewrite by_mtime_Permutation. apply NoDup_fst_map_to_list. Qed.

(** What [check_cache_folder_size] does to the folder, in terms of the
    number [k] of entries of the mtime-ordered listing its loop visits. *)
Lemma check_cache_folder_size_spec B folder :
  ∃ k : nat,
    let gone := removable (take k (by_mtime folder)) in
    (k ≤ length (by_mtime folder))%nat
    ∧ check_cache_folder_size B folder = foldl (λ m x, delete x.1 m) folder gone
    ∧ folder_size (check_cache_folder_size B folder)
      = folder_size folder - total_size_of gone
    ∧ (folder_size (check_cache_folder_size B folder) ≤ B
       ∨ k = length (by_mtime folder))
    ∧ (∀ j : nat, (j < k)%nat →
         B < folder_size folder - total_size_of (removable (take j (by_mtime folder)))).
Proof.
  unfold check_cache_folder_size, check_cache_folder_size_on.
  fold (folder_size folder). fold (by_mtime folder).
  assert (Hsize : ∀ k, folder_size (foldl (λ m x, delete x.1 m) folder
                                      (removable (take k (by_mtime folder))))
                       = folder_size folder
                         - total_size_of (removable (take k (by_mtime folder)))).
  { intros k. apply folder_size_foldl_delete.
    - eapply sublist_NoDup_fst; [|apply by_mtime_NoDup].
      etrans; [apply removable_sublist|apply sublist_take].
    - apply Forall_forall. intros x Hx. apply by_mtime_lookup.
      apply list_elem_of_filter in Hx as [_ Hx].
      by apply elem_of_take in Hx as (i & Hx%list_elem_of_lookup_2 & _). }
  destruct (Z.gtb_spec (folder_size folder) B) as [Hgt|Hle].
  - exists (visited B (by_mtime folder) (folder_size folder)). cbn zeta.
    rewrite remove_oldest_spec. cbn [snd].
    rewrite removed_oldest_visited.
    split_and!.
    + apply visited_le.
    + done.
    + apply Hsize.
    + rewrite Hsize, <- removed_oldest_visited. apply visited_stops.
    + intros j Hj. by apply visited_shortest.
  - exists 0%nat. cbn zeta. rewrite take_0. unfold removable. cbn.
    split_and!; [lia|done|lia|left; lia|lia].
Qed.
End budget_facts.

Section budget_claim.
Context {pandas : Pandas} {pickle : Pickle}.

Lemma removable_all (files : list (string * DiskFile)) :
  Forall (λ x, f_removable x.2 = true) files → removable files = files.
Proof.
  unfold removable. induction 1 as [|x l Hx _ IH]; [done|].
  by rewrite filter_cons_True, IH.
Qed.

(** Whenever removing some removable files could bring the folder within
    the limit, the folder is within the limit afterwards. *)
Lemma check_cache_folder_size_reaches (B : Z) (folder : gmap string DiskFile)
    (del : list (string * DiskFile)) :
  sublist del (map_to_list folder) →
  Forall (λ x, f_removable x.2 = true) del →
  folder_size folder - total_size_of del ≤ B →
  folder_size (check_cache_folder_size B folder) ≤ B.
Proof.
  intros Hsub Hdel Hreach.
  destruct (check_cache_folder_size_spec B folder) as (k & _ & _ & Hsize & Hstop & _).
  cbn zeta in *. destruct Hstop as [? | ->]; [done|].
  rewrite Hsize, firstn_all.
  assert (total_size_of del ≤ total_size_of (removable (by_mtime folder))); [|lia].
  unfold removable. rewrite by_mtime_Permutation.
  apply total_size_of_sublist. by apply sublist_removable.
Qed.

(** C5, as the function has it. With [files_sorted] the listing of the
    folder in ascending mtime order, the loop visits a prefix of it (of
    some length [k]) and removes exactly the files of that prefix that
    can be removed; a file whose removal raises is skipped. No file is
    touched when the folder is within the limit [B]; otherwise the prefix
    is the shortest one whose removable files bring the total within [B]
    (or the whole listing). The remaining total is at most [B] whenever
    removing some removable files could reach [B], and when no removal
    fails the removed files are exactly that prefix. *)
Theorem check_cache_folder_size_evicts_oldest (B : Z) (folder : gmap string DiskFile) :
  let folder' := check_cache_folder_size B folder in
  let files_sorted := by_mtime folder in
  files_sorted ≡ₚ map_to_list folder
  ∧ StronglySorted (λ a b, f_mtime a.2 ≤ f_mtime b.2) files_sorted
  ∧ ∃ k : nat,
      let gone := removable (take k files_sorted) in
      (k ≤ length files_sorted)%nat
      ∧ (∀ fp, folder' !! fp = if decide (fp ∈ gone.*1) then None else folder !! fp)
      ∧ folder_size folder' = folder_size folder - total_size_of gone
      ∧ (folder_size folder ≤ B → folder' = folder)
      ∧ (folder_size folder' ≤ B ∨ k = length files_sorted)
      ∧ (∀ j : nat, (j < k)%nat →
           B < folder_size folder - total_size_of (removable (take j files_sorted)))
      ∧ (∀ del, sublist del (map_to_list folder) →
           Forall (λ x, f_removable x.2 = true) del →
           folder_size folder - total_size_of del ≤ B →
           folder_size folder' ≤ B)
      ∧ (Forall (λ x, f_removable x.2 = true) (map_to_list folder) →
           gone = take k files_sorted).
Proof.
  intros folder' files_sorted.
  split; [apply by_mtime_Permutation|].
  split; [apply (sorted_by_key_sorted (λ x : string * DiskFile, f_mtime x.2))|].
  destruct (check_cache_folder_size_spec B folder) as (k & Hk & Heq & Hsize & Hstop & Hmin).
  cbn zeta in *. fold folder' in Heq, Hsize, Hstop. fold files_sorted in Hk, Heq, Hsize, Hstop, Hmin.
  exists k. split_and!; try done.
  - intros fp. rewrite Heq. apply lookup_foldl_delete.
  - intros Hle. destruct k as [|k]; [by rewrite Heq|].
    specialize (Hmin 0%nat ltac:(lia)). rewrite take_0 in Hmin.
    unfold removable in Hmin. cbn in Hmin. lia.
  - intros del Hsub Hdel Hreach. by apply (check_cache_folder_size_reaches B folder del).
  - intros Hall. apply removable_all, Forall_take.
    unfold files_sorted. by rewrite by_mtime_Permutation.
Qed.
End budget_claim.

(** C5, on the folder of two artifacts with limit 10: removing the newer
    artifact reaches the limit, so the folder ends within it. *)
Lemma check_cache_folder_size_evicts_oldest_witness :
  folder_size (check_cache_folder_size 10 two_artifacts) ≤ 10.
Proof.
  destruct (check_cache_folder_size_evicts_oldest 10 two_artifacts)
    as (_ & _ & k & _ & _ & _ & _ & _ & _ & Hreach & _).
  apply (Hreach [("dem_cache/demcache_b.dem.pkl", free_artifact)]).
  - vm_compute. apply sublist_cons, sublist_skip, sublist_nil.
  - by repeat constructor.
  - vm_compute. discriminate.
Defined.

(** C5 as the specification words it does not hold: in the folder of two
    artifacts the older one cannot be removed, the loop skips it and
    removes the newer one, so what is removed is no prefix of the
    mtime-ordered listing. *)
Lemma removed_files_not_always_a_prefix :
  ¬ (∀ (pandas : Pandas) (pickle : Pickle) (B : Z) (folder : gmap string DiskFile),
       ∃ k : nat, ∀ fp, is_Some (folder !! fp) →
         (check_cache_folder_size B folder !! fp = None
          ↔ fp ∈ (take k (by_mtime folder)).*1)).
Proof.
  intros Hclaim.
  destruct (Hclaim plain_pandas plain_pickle 10 two_artifacts) as [k Hk].
  destruct k as [|k].
  - destruct (Hk "dem_cache/demcache_b.dem.pkl") as [Hgone _]; [by eexists|].
    specialize (Hgone eq_refl). by apply elem_of_nil in Hgone.
  - destruct (Hk "dem_cache/demcache_a.dem.pkl") as [_ Hkept]; [by eexists|].
    assert (Hin : "dem_cache/demcache_a.dem.pkl" ∈ (take (S k) (by_mtime two_artifacts)).*1).
    { change (by_mtime two_artifacts)
        with [("dem_cache/demcache_a.dem.pkl", held_artifact);
              ("dem_cache/demcache_b.dem.pkl", free_artifact)].
      left. }
    specialize (Hkept Hin). vm_compute in Hkept. discriminate.
Qed.

(** ** The two cache tiers of [_parse] *)

Section tier_facts.
Context {pandas : Pandas} {pickle : Pickle}.
Implicit Types (self : DemoFileParser) (w : World) (d : CacheDict).

(** Assigning from a dictionary that has both subscripted keys sets all
    seven attributes; the header the instance had before does not matter. *)
Lemma assign_from_complete d self h fs :
  sd_header d = Some h → sd_footsteps d = Some fs →
  ∃ self', assign_from d self = AllAssigned self'
    ∧ file self' = file self
    ∧ weapons self' = weapons self
    ∧ header self' = h
    ∧ footsteps self' = fs
    ∧ rounds self' = get_or (sd_rounds d) []
    ∧ players self' = list_to_set (get_or (sd_players d) [])
    ∧ player_teams self' = get_or (sd_player_teams d) ∅
    ∧ player_deaths self' = get_or (sd_player_deaths d) None
    ∧ weapon_popularity self' = get_or (sd_weapon_popularity d) None.
Proof.
  intros Hh Hfs. unfold assign_from. rewrite Hh, Hfs.
  eexists. split; [reflexivity|]. by split_and!.
Qed.

Lemma assign_from_set_header d h self :
  assign_from d (set_header h self)
  = match assign_from d self with
    | AllAssigned self' => AllAssigned self'
    | MissingKey key self' =>
        MissingKey key (if String.eqb key "header" then set_header h self else self')
    end.
Proof.
  unfold assign_from.
  destruct (sd_header d); [|done]. by destruct (sd_footsteps d).
Qed.

Lemma assign_from_same_demo d self1 self2 s1 s2 :
  assign_from d self1 = AllAssigned s1 → assign_from d self2 = AllAssigned s2 →
  same_demo s1 s2.
Proof.
  unfold assign_from.
  destruct (sd_header d); [|done]. destruct (sd_footsteps d); [|done].
  intros [= <-] [= <-]. by repeat split.
Qed.

Lemma disk_artifact_Some cache_file w d :
  disk_artifact cache_file w = Some d ↔
  ∃ f h fs, cache_folder w !! cache_file = Some f ∧ f_readable f = true
    ∧ pickle_load (f_content f) = Some d
    ∧ sd_header d = Some h ∧ sd_footsteps d = Some fs.
Proof.
  unfold disk_artifact. split.
  - destruct (cache_folder w !! cache_file) as [f|] eqn:Hf; [|done].
    destruct (f_readable f) eqn:Hr; [|done].
    destruct (pickle_load (f_content f)) as [d'|] eqn:Hl; [|done].
    destruct (sd_header d') as [h|] eqn:Hh; [|done].
    destruct (sd_footsteps d') as [fs|] eqn:Hfs; [|done].
    intros [= <-]. by exists f, h, fs.
  - intros (f & h & fs & -> & -> & -> & -> & ->). done.
Qed.

(** A hit of the on-disk tier: the attributes come from the artifact and
    the dictionary is put into the in-process cache. *)
Lemma _load_from_cache_hit cache_file self w d :
  disk_artifact cache_file w = Some d →
  ∃ self', assign_from d self = AllAssigned self'
    ∧ _load_from_cache cache_file self w
      = (true, self', set_demoDataCache (<[file self := d]> (demoDataCache w)) w).
Proof.
  intros (f & h & fs & Hf & Hr & Hl & Hh & Hfs)%disk_artifact_Some.
  destruct (assign_from_complete d self h fs Hh Hfs) as (self' & Ha & Hfile & _).
  exists self'. split; [done|].
  unfold _load_from_cache. rewrite Hf, Hr, Hl, Ha. cbn [negb]. by rewrite Hfile.
Qed.

(** A miss of the on-disk tier, whatever its cause: nothing outside the
    instance changes, and of the instance at most the header. *)
Lemma _load_from_cache_miss cache_file self w :
  disk_artifact cache_file w = None →
  ∃ self1, _load_from_cache cache_file self w = (false, self1, w)
    ∧ (self1 = self ∨ ∃ h, self1 = set_header h self).
Proof.
  unfold disk_artifact, _load_from_cache, assign_from.
  destruct (cache_folder w !! cache_file) as [f|]; [|by eauto].
  destruct (f_readable f); [|by eauto]. cbn [negb].
  destruct (pickle_load (f_content f)) as [d|]; [|by eauto].
  destruct (sd_header d) as [h|]; [|by eauto].
  destruct (sd_footsteps d) as [fs|]; [done|]. eauto.
Qed.

Lemma parse_fresh_set_header cache_file h self w :
  parse_fresh cache_file (set_header h self) w = parse_fresh cache_file self w.
Proof. reflexivity. Qed.

(** [_parse] by cases: the on-disk tier first, then the in-process tier,
    then the decoder. *)
Lemma _parse_cases self w :
  _parse self w
  = match disk_artifact (external_cache_path (file self)) w with
    | Some d =>
        match assign_from d self with
        | AllAssigned self' =>
            (Returns self', set_demoDataCache (<[file self := d]> (demoDataCache w)) w)
        | MissingKey key _ => (Raises ("'" +:+ key +:+ "'"), w)
        end
    | None =>
        match demoDataCache w !! file self with
        | Some cached =>
            match assign_from cached self with
            | AllAssigned self' => (Returns self', w)
            | MissingKey key _ => (Raises ("'" +:+ key +:+ "'"), w)
            end
        | None => parse_fresh (external_cache_path (file self)) self w
        end
    end.
Proof.
  unfold _parse. set (cache_file := external_cache_path (file self)).
  destruct (disk_artifact cache_file w) as [d|] eqn:Hd.
  - destruct (_load_from_cache_hit cache_file self w d Hd) as (self' & Ha & Hl).
    apply disk_artifact_Some in Hd as (f & _ & _ & Hf & _).
    by rewrite Hf, Hl, Ha.
  - destruct (_load_from_cache_miss cache_file self w Hd) as (self1 & Hl & Hs).
    assert (Hstep : (match cache_folder w !! cache_file with
                     | Some _ => _load_from_cache cache_file self w
                     | None => (false, self, w)
                     end) = (false, self1, w) ∨
                    (match cache_folder w !! cache_file with
                     | Some _ => _load_from_cache cache_file self w
                     | None => (false, self, w)
                     end) = (false, self, w)).
    { destruct (cache_folder w !! cache_file); [by left|by right]. }
    destruct Hstep as [-> | ->]; [destruct Hs as [-> | [h ->]]|];
      unfold _load_from_memory_cache; cbn [file set_header];
      (destruct (demoDataCache w !! file self) as [c|]; [|done]);
      rewrite ?assign_from_set_header; by destruct (assign_from c self).
Qed.
End tier_facts.

Section lookup_claims.
Context {pandas : Pandas} {pickle : Pickle}.
Implicit Types (self : DemoFileParser) (w : World) (d : CacheDict).

Lemma memory_tier_after_disk_miss self w :
  disk_artifact (external_cache_path (file self)) w = None →
  (demoDataCache w !! file self = None →
     _parse self w = parse_fresh (external_cache_path (file self)) self w)
  ∧ (∀ cached self', demoDataCache w !! file self = Some cached →
       assign_from cached self = AllAssigned self' →
       _parse self w = (Returns self', w)).
Proof.
  intros Hd. split.
  - intros Hm. by rewrite _parse_cases, Hd, Hm.
  - intros cached self' Hm Ha. by rewrite _parse_cases, Hd, Hm, Ha.
Qed.

(** C1, as [_parse] has it. The lookup tries the on-disk tier first: when
    the artifact of the file loads, its data is returned and the loaded
    dictionary is put into the in-process cache under the file identity
    before [_parse] returns, whatever the in-process cache held. Only when
    the on-disk tier misses is the in-process tier consulted, and a hit
    there returns its data and leaves the world as it is; when both miss,
    the file is parsed. *)
Theorem cache_lookup_disk_then_memory self w :
  let cache_file := external_cache_path (file self) in
  (∀ d, disk_artifact cache_file w = Some d →
     ∃ self', assign_from d self = AllAssigned self'
       ∧ _parse self w
         = (Returns self', set_demoDataCache (<[file self := d]> (demoDataCache w)) w)
       ∧ demoDataCache (_parse self w).2 !! file self = Some d)
  ∧ (disk_artifact cache_file w = None →
     ∀ cached self', demoDataCache w !! file self = Some cached →
       assign_from cached self = AllAssigned self' →
       _parse self w = (Returns self', w))
  ∧ (disk_artifact cache_file w = None → demoDataCache w !! file self = None →
     _parse self w = parse_fresh cache_file self w).
Proof.
  intros cache_file. split_and!.
  - intros d Hd. destruct (_load_from_cache_hit cache_file self w d Hd) as (self' & Ha & _).
    exists self'. rewrite _parse_cases. fold cache_file. rewrite Hd, Ha.
    split_and!; [done..|]. cbn. apply lookup_insert_eq.
  - intros Hd cached self' Hm Ha. rewrite _parse_cases. fold cache_file.
    by rewrite Hd, Hm, Ha.
  - intros Hd Hm. rewrite _parse_cases. fold cache_file. by rewrite Hd, Hm.
Qed.

(** C6, as [_parse] has it. A corrupted or unreadable artifact makes the
    on-disk tier miss without touching the world; the lookup goes on to
    the in-process tier, whose hit is returned, and only when that misses
    too is the file parsed again. An exception that [_parse] raises then
    is one the parse of the file raises (or the [KeyError] of an
    in-process entry), never one of the artifact. *)
Theorem corrupt_artifact_is_a_disk_miss self w :
  let cache_file := external_cache_path (file self) in
  disk_corrupt cache_file w →
  (∃ self1, _load_from_cache cache_file self w = (false, self1, w))
  ∧ (demoDataCache w !! file self = None →
     _parse self w = parse_fresh cache_file self w)
  ∧ (∀ cached self', demoDataCache w !! file self = Some cached →
       assign_from cached self = AllAssigned self' →
       _parse self w = (Returns self', w))
  ∧ (∀ e, (_parse self w).1 = Raises e →
       (parse_fresh cache_file self w).1 = Raises e
       ∨ ∃ cached key self1, demoDataCache w !! file self = Some cached
           ∧ assign_from cached self = MissingKey key self1).
Proof.
  intros cache_file [_ Hd].
  destruct (memory_tier_after_disk_miss self w Hd) as (H1 & H2).
  split_and!.
  - destruct (_load_from_cache_miss cache_file self w Hd) as (self1 & Hl & _). eauto.
  - done.
  - done.
  - intros e He. destruct (demoDataCache w !! file self) as [c|] eqn:Hm.
    + right. destruct (assign_from c self) as [s|key s] eqn:Ha.
      * rewrite (H2 c s eq_refl Ha) in He. done.
      * eauto.
    + left. by rewrite (H1 eq_refl) in He.
Qed.
End lookup_claims.

(** C1, where both tiers hold the demo: the dictionary of the artifact
    ends up in the in-process cache. *)
Lemma cache_lookup_disk_then_memory_witness :
  demoDataCache (_parse (new_instance demo_path) both_tiers_world).2 !! demo_path
  = Some (dict_of mirage_header).
Proof.
  destruct (cache_lookup_disk_then_memory (new_instance demo_path) both_tiers_world)
    as (Hdisk & _).
  destruct (Hdisk (dict_of mirage_header)) as (s & _ & _ & Hmem);
    [vm_compute; reflexivity | exact Hmem].
Defined.

(** C1 as the specification words it does not hold: where both tiers hold
    the demo, a lookup that asks the in-process tier first answers with
    the in-process entry, but [_parse] returns the data of the artifact. *)
Lemma lookup_is_not_memory_first :
  ¬ (∀ (pandas : Pandas) (pickle : Pickle) (self self' : DemoFileParser)
       (w w' : World),
       get_memory_first self w = Some (self', w') →
       _parse self w = (Returns self', w')).
Proof.
  intros Hclaim.
  destruct (get_memory_first (new_instance demo_path) both_tiers_world)
    as [[s' w']|] eqn:Hget; [|vm_compute in Hget; discriminate].
  pose proof (Hclaim _ _ _ _ _ _ Hget) as Hparse.
  assert (Hs : header s' !! "map_name" = Some (PyStr "de_dust2")).
  { vm_compute in Hget. by injection Hget as <- _. }
  assert (Hp : match (_parse (new_instance demo_path) both_tiers_world).1 with
               | Returns s => header s !! "map_name"
               | Raises _ => None
               end = Some (PyStr "de_mirage")) by (vm_compute; reflexivity).
  rewrite Hparse in Hp. cbn in Hp. congruence.
Qed.

(** C6, where the artifact is no pickle and the in-process cache is
    empty: the file is parsed again. *)
Lemma corrupt_artifact_is_a_disk_miss_witness :
  _parse (new_instance demo_path) corrupt_world
  = parse_fresh (external_cache_path demo_path) (new_instance demo_path) corrupt_world.
Proof.
  destruct (corrupt_artifact_is_a_disk_miss (new_instance demo_path) corrupt_world)
    as (_ & Hfresh & _).
  - split; [eexists|]; vm_compute; reflexivity.
  - apply Hfresh. vm_compute. reflexivity.
Defined.

(** C6 as the specification words it does not hold: with a corrupted
    artifact and the demo in the in-process cache, [_parse] returns the
    cached demo and does not parse the file again (which here would
    raise). *)
Lemma corrupt_artifact_does_not_always_reparse :
  ¬ (∀ (pandas : Pandas) (pickle : Pickle) (self : DemoFileParser) (w : World),
       disk_corrupt (external_cache_path (file self)) w →
       _parse self w = parse_fresh (external_cache_path (file self)) self w).
Proof.
  intros Hclaim.
  specialize (Hclaim _ _ (new_instance demo_path) corrupt_with_memory_world).
  apply (f_equal fst) in Hclaim.
  - vm_compute in Hclaim. discriminate.
  - split; [eexists|]; vm_compute; reflexivity.
Qed.

(** ** The fresh parse *)

Section fresh_facts.
Context {pandas : Pandas} {pickle : Pickle}.
Implicit Types (self : DemoFileParser) (w : World) (d : CacheDict).

Lemma same_id_foldl {B} (step : DemoFileParser → B → DemoFileParser) (l : list B) self :
  (∀ s x, same_id (step s x) s) → same_id (foldl step self l) self.
Proof.
  intros Hstep. revert self. induction l as [|x l IH]; intros self; simpl; [done|].
  destruct (IH (step self x)) as [? ?], (Hstep self x) as [? ?].
  split; congruence.
Qed.

Lemma read_weapons_same_id wd self : same_id (read_weapons wd self) self.
Proof.
  unfold read_weapons. destruct wd as [df|]; [destruct (df_empty df)|]; done.
Qed.

Lemma read_player_deaths_same_id ed self : same_id (read_player_deaths ed self) self.
Proof.
  unfold read_player_deaths. destruct ed as [df|]; [|done].
  destruct (df_empty df); [done|]. cbn [negb].
  destruct (df_has_columns df _); [done|]. by destruct (df_has_columns df _).
Qed.

Lemma footstep_step_same_id self row : same_id (footstep_step self row) self.
Proof.
  destruct row as (ix & [x|] & [y|] & pname & tname); try done.
  unfold footstep_step. destruct (truthy pname); [|done].
  by destruct (is_CT_or_T _).
Qed.

Lemma read_footsteps_same_id t self : same_id (read_footsteps t self) self.
Proof.
  unfold read_footsteps. destruct t as [t|]; [|done].
  destruct (tk_empty t); [done|]. cbn [negb].
  destruct (same_id_foldl footstep_step (tick_rows t) (set_footsteps [] self)
              footstep_step_same_id). done.
Qed.

Lemma round_step_same_id self row : same_id (round_step self row) self.
Proof.
  unfold round_step. destruct (re_total_rounds_played row); [|done].
  by destruct (is_CT_or_T _).
Qed.

Lemma read_rounds_same_id rd self : same_id (read_rounds rd self) self.
Proof.
  unfold read_rounds. destruct rd as [[|r rows]|]; try done.
  apply same_id_foldl, round_step_same_id.
Qed.

Lemma player_info_step_same_id self row : same_id (player_info_step self row) self.
Proof.
  unfold player_info_step. destruct (truthy (pi_name row) && _); [|done].
  by destruct (truthy _).
Qed.

Lemma read_player_info_same_id p self : same_id (read_player_info p self) self.
Proof.
  unfold read_player_info. destruct (parse_player_info p) as [[[|r rows]|]|]; try done.
  apply same_id_foldl, player_info_step_same_id.
Qed.

Lemma fallback_step_same_id t self i : same_id (fallback_step t self i) self.
Proof. unfold fallback_step. by destruct (truthy _ && _). Qed.

Lemma fallback_teams_same_id t self : same_id (fallback_teams t self) self.
Proof.
  unfold fallback_teams. destruct t as [t|]; [|done].
  destruct (bool_decide _ && _); [|done].
  apply same_id_foldl, fallback_step_same_id.
Qed.

(** A fresh parse returns exactly when the decoder opens the file and the
    three event queries outside a [try] return; a header that cannot be
    read is replaced by the empty one. What it returns was stored through
    [store_to_cache]. *)
Lemma parse_fresh_Returns cache_file self w self1 w1 :
  parse_fresh cache_file self w = (Returns self1, w1) ↔
  ∃ p wd ed rd,
    open_demo w (file self) = Returns p
    ∧ parse_event_player_death_weapons p = Returns wd
    ∧ parse_event_player_death p = Returns ed
    ∧ parse_event_round_end p = Returns rd
    ∧ self1 = fallback_teams (read_ticks p)
               (read_player_info p
                 (read_rounds rd
                   (set_rounds []
                     (read_footsteps (read_ticks p)
                       (read_player_deaths ed
                         (read_weapons wd (set_header (read_header p) self)))))))
    ∧ w1 = store_to_cache cache_file self1 w.
Proof.
  unfold parse_fresh. split.
  - destruct (open_demo w (file self)) as [p|] eqn:Hp; [|done].
    destruct (parse_event_player_death_weapons p) as [wd|] eqn:Hwd; [|done].
    destruct (parse_event_player_death p) as [ed|] eqn:Hed; [|done].
    destruct (parse_event_round_end p) as [rd|] eqn:Hrd; [|done].
    intros [= <- <-]. by exists p, wd, ed, rd.
  - intros (p & wd & ed & rd & -> & -> & -> & -> & -> & ->). done.
Qed.

Lemma parse_fresh_same_id cache_file self w self1 w1 :
  parse_fresh cache_file self w = (Returns self1, w1) →
  file self1 = file self
  ∧ w1 = store_to_cache cache_file self1 w
  ∧ ∃ p, open_demo w (file self) = Returns p ∧ header self1 = read_header p.
Proof.
  intros (p & wd & ed & rd & Hp & _ & _ & _ & -> & ->)%parse_fresh_Returns.
  set (s0 := set_header (read_header p) self).
  set (s1 := read_weapons wd s0). set (s2 := read_player_deaths ed s1).
  set (s3 := read_footsteps (read_ticks p) s2). set (s4 := set_rounds [] s3).
  set (s5 := read_rounds rd s4). set (s6 := read_player_info p s5).
  destruct (fallback_teams_same_id (read_ticks p) s6) as [F7 H7].
  destruct (read_player_info_same_id p s5) as [F6 H6].
  destruct (read_rounds_same_id rd s4) as [F5 H5].
  destruct (read_footsteps_same_id (read_ticks p) s2) as [F3 H3].
  destruct (read_player_deaths_same_id ed s1) as [F2 H2].
  destruct (read_weapons_same_id wd s0) as [F1 H1].
  fold s1 s2 s3 s4 s5 s6 in F1, H1, F2, H2, F3, H3, F5, H5, F6, H6, F7, H7.
  split_and!; [|done|exists p; split; [done|]].
  - rewrite F7, F6, F5. change (file s4) with (file s3). by rewrite F3, F2, F1.
  - rewrite H7, H6, H5. change (header s4) with (header s3). by rewrite H3, H2, H1.
Qed.
End fresh_facts.

(** ** Storing a demo and loading it back *)

Section round_trip.
Context {pandas : Pandas} {pickle : Pickle}.
Implicit Types (self : DemoFileParser) (w : World) (d : CacheDict).

Lemma write_artifact_mem cache_file d w :
  demoDataCache (write_artifact cache_file d w) = demoDataCache w.
Proof.
  unfold write_artifact. destruct (cache_folder w !! cache_file) as [f|].
  - by destruct (f_writable f).
  - by destruct (can_create w).
Qed.

Lemma store_to_cache_mem cache_file self w :
  demoDataCache (store_to_cache cache_file self w)
  = <[file self := stored_data_of self]> (demoDataCache w).
Proof. unfold store_to_cache. by rewrite write_artifact_mem. Qed.

(** The budget only removes files: what is left is as it was. *)
Lemma check_cache_folder_size_lookup B (folder : gmap string DiskFile) fp f :
  check_cache_folder_size B folder !! fp = Some f → folder !! fp = Some f.
Proof.
  destruct (check_cache_folder_size_spec B folder) as (k & _ & -> & _).
  rewrite lookup_foldl_delete. by destruct (decide _).
Qed.

Lemma disk_artifact_ext cache_file w1 w2 :
  cache_folder w1 !! cache_file = cache_folder w2 !! cache_file →
  disk_artifact cache_file w1 = disk_artifact cache_file w2.
Proof. unfold disk_artifact. by intros ->. Qed.

Lemma disk_artifact_absent cache_file w :
  cache_folder w !! cache_file = None → disk_artifact cache_file w = None.
Proof. unfold disk_artifact. by intros ->. Qed.

(** After [store_to_cache] the on-disk tier holds the stored dictionary
    for the cache file, or still misses as it did before. *)
Lemma disk_artifact_store cache_file self w :
  PickleRoundTrip →
  disk_artifact cache_file w = None →
  disk_artifact cache_file (store_to_cache cache_file self w)
    = Some (stored_data_of self)
  ∨ disk_artifact cache_file (store_to_cache cache_file self w) = None.
Proof.
  intros Hrt Hmiss. unfold store_to_cache.
  set (sd := stored_data_of self).
  set (w0 := set_demoDataCache _ w).
  set (enforced := check_cache_folder_size DEFAULT_MAX_SIZE (cache_folder w0)).
  set (w1 := set_cache_folder enforced w0).
  assert (Hnew : ∀ f' : DiskFile, f_content f' = pickle_dump sd →
            disk_artifact cache_file (set_cache_folder (<[cache_file := f']> enforced) w1)
              = Some sd
            ∨ disk_artifact cache_file (set_cache_folder (<[cache_file := f']> enforced) w1)
              = None).
  { intros f' Hc. unfold disk_artifact. cbn [cache_folder set_cache_folder].
    rewrite lookup_insert_eq. destruct (f_readable f'); [|by right].
    rewrite Hc, Hrt. by left. }
  assert (Hold : ∀ f, enforced !! cache_file = Some f → disk_artifact cache_file w1 = None).
  { intros f Hf. pose proof (check_cache_folder_size_lookup _ _ _ _ Hf) as Hf0.
    rewrite <- Hmiss. apply disk_artifact_ext.
    change (enforced !! cache_file = cache_folder w !! cache_file).
    by rewrite Hf, <- Hf0. }
  unfold write_artifact. change (cache_folder w1) with enforced.
  destruct (enforced !! cache_file) as [f|] eqn:Hf.
  - destruct (f_writable f); [by apply Hnew|]. right. by apply (Hold f).
  - destruct (can_create w1); [by apply Hnew|]. right.
    by apply disk_artifact_absent.
Qed.

Lemma assign_from_stored self self0 :
  ∃ self', assign_from (stored_data_of self) self0 = AllAssigned self'
    ∧ same_demo self self'.
Proof.
  destruct (assign_from_complete (stored_data_of self) self0 (header self) (footsteps self)
              eq_refl eq_refl) as (self' & Ha & _ & _ & Hh & Hf & Hr & Hp & Ht & Hd & Hw).
  exists self'. split; [done|]. cbn in *.
  repeat split; try done. rewrite Hp. by rewrite list_to_set_elements_L.
Qed.

End round_trip.

(** The stand-in pickle loads what it dumps. *)
Lemma plain_pickle_round_trip : @PickleRoundTrip plain_pandas plain_pickle.
Proof. intros d. reflexivity. Qed.


(** ** Headers without a map identifier *)

Section header_claim.
Context {pandas : Pandas} {pickle : Pickle}.
Implicit Types (self : DemoFileParser) (w : World) (g : Gui).

Lemma parse_fresh_Raises cache_file self w e :
  (parse_fresh cache_file self w).1 = Raises e →
  open_demo w (file self) = Raises e
  ∨ ∃ p, open_demo w (file self) = Returns p
      ∧ (parse_event_player_death_weapons p = Raises e
         ∨ parse_event_player_death p = Raises e
         ∨ parse_event_round_end p = Raises e).
Proof.
  unfold parse_fresh.
  destruct (open_demo w (file self)) as [p|e0] eqn:Hp;
    [|cbn; intros [= ->]; by left].
  intros He. right. exists p. split; [done|]. revert He.
  destruct (parse_event_player_death_weapons p) as [wd|];
    [|cbn; intros [= ->]; by left].
  destruct (parse_event_player_death p) as [ed|];
    [|cbn; intros [= ->]; by right; left].
  destruct (parse_event_round_end p) as [rd|];
    [done|cbn; intros [= ->]; by right; right].
Qed.

(** [on_parsed] registers nothing when the dialog was cancelled, when the
    parse reported an error, or when the header has no map identifier. *)
Lemma on_parsed_rejects canceled f hdr err g w :
  canceled = true ∨ err ≠ "" ∨ no_map_name hdr →
  loaded (on_parsed canceled f hdr err g w).1 = loaded g
  ∧ (on_parsed canceled f hdr err g w).2 = w.
Proof.
  unfold on_parsed, no_map_name. intros Hrej.
  destruct canceled; [done|]. cbn [truthy].
  destruct (String.eqb_spec err "") as [->|Herr]; [|done]. cbn [negb].
  destruct Hrej as [? | [? | ->]]; done.
Qed.

End header_claim.



(** ** The budget and the write of a fresh parse *)

Section write_facts.
Context {pandas : Pandas} {pickle : Pickle}.
Implicit Types (self : DemoFileParser) (w : World) (folder : gmap string DiskFile).

Lemma folder_size_delete folder fp f :
  folder !! fp = Some f → folder_size folder = getsize f + folder_size (delete fp folder).
Proof.
  intros Hf. unfold folder_size. by rewrite <- (map_to_list_delete folder fp f Hf).
Qed.

Lemma folder_size_delete_le folder fp :
  folder_size (delete fp folder) ≤ folder_size folder.
Proof.
  destruct (folder !! fp) as [f|] eqn:Hf.
  - rewrite (folder_size_delete folder fp f Hf). pose proof (getsize_nonneg f). lia.
  - by rewrite delete_id.
Qed.

Lemma folder_size_insert folder fp f :
  folder_size (<[fp := f]> folder) = getsize f + folder_size (delete fp folder).
Proof.
  rewrite (folder_size_delete (<[fp := f]> folder) fp f) by apply lookup_insert_eq.
  by rewrite delete_insert_eq.
Qed.

(** What [store_to_cache] leaves in the folder: the folder the budget
    enforcement left, with the new artifact written over it when the file
    could be opened for writing. *)
Lemma store_to_cache_folder cache_file self w :
  let enforced := check_cache_folder_size DEFAULT_MAX_SIZE (cache_folder w) in
  cache_folder (store_to_cache cache_file self w) = enforced
  ∨ ∃ f', f_content f' = pickle_dump (stored_data_of self)
      ∧ cache_folder (store_to_cache cache_file self w) = <[cache_file := f']> enforced.
Proof.
  intros enforced. unfold store_to_cache, write_artifact.
  cbn [cache_folder set_cache_folder set_demoDataCache can_create now]. fold enforced.
  destruct (enforced !! cache_file) as [f|].
  - destruct (f_writable f);
      [right; eexists; split; [|reflexivity]; reflexivity|left; reflexivity].
  - destruct (can_create w);
      [right; eexists; split; [|reflexivity]; reflexivity|left; reflexivity].
Qed.
End write_facts.

(** C10. In a fresh parse the budget is enforced on the folder as it was
    and the new artifact is written afterwards: the folder the parse
    leaves is the enforced folder with the artifact written over it (or
    the enforced folder itself when the write fails), so apart from the
    new artifact it holds what the enforcement left, and its total is
    at most the enforced total plus the size of the new artifact; that
    is within the budget plus that size whenever the enforcement reached
    the budget, as it does when every file can be removed. And the total
    can exceed the budget: with another artifact of exactly the budget's
    size in the folder, the parse leaves the folder above the budget. *)
Theorem budget_enforced_before_write :
  (∀ (pandas : Pandas) (pickle : Pickle) (cache_file : string)
     (self self1 : DemoFileParser) (w w1 : World),
     parse_fresh cache_file self w = (Returns self1, w1) →
     let enforced := check_cache_folder_size DEFAULT_MAX_SIZE (cache_folder w) in
     let new_size := Z.of_N (blob_size (pickle_dump (stored_data_of self1))) in
     (cache_folder w1 = enforced
      ∨ ∃ f', f_content f' = pickle_dump (stored_data_of self1)
          ∧ cache_folder w1 = <[cache_file := f']> enforced)
     ∧ delete cache_file (cache_folder w1) = delete cache_file enforced
     ∧ folder_size (delete cache_file (cache_folder w1)) ≤ folder_size enforced
     ∧ folder_size (cache_folder w1) ≤ folder_size enforced + new_size
     ∧ (folder_size enforced ≤ DEFAULT_MAX_SIZE →
        folder_size (cache_folder w1) ≤ DEFAULT_MAX_SIZE + new_size)
     ∧ (Forall (λ x, f_removable x.2 = true) (map_to_list (cache_folder w)) →
        folder_size enforced ≤ DEFAULT_MAX_SIZE))
  ∧ (∃ (self1 : @DemoFileParser plain_pandas) (w1 : @World plain_pandas plain_pickle),
       parse_fresh (external_cache_path demo_path) (new_instance demo_path) full_world
         = (Returns self1, w1)
       ∧ folder_size (cache_folder full_world) ≤ DEFAULT_MAX_SIZE
       ∧ DEFAULT_MAX_SIZE < folder_size (cache_folder w1)).
Proof.
  split.
  - intros pandas pickle cache_file self self1 w w1 Hfresh enforced new_size.
    destruct (parse_fresh_same_id _ _ _ _ _ Hfresh) as (_ & -> & _).
    pose proof (store_to_cache_folder cache_file self1 w) as Hfolder.
    cbn zeta in Hfolder. fold enforced in Hfolder.
    pose proof (folder_size_delete_le enforced cache_file) as Hle.
    assert (Hnew : 0 ≤ new_size) by (unfold new_size; lia).
    generalize dependent (cache_folder (store_to_cache cache_file self1 w)).
    intros after Hfolder.
    assert (Hdel : delete cache_file after = delete cache_file enforced).
    { destruct Hfolder as [-> | (f' & _ & ->)]; [done|apply delete_insert_eq]. }
    assert (Hsize : folder_size after ≤ folder_size enforced + new_size).
    { destruct Hfolder as [-> | (f' & Hc & ->)]; [lia|].
      rewrite folder_size_insert. unfold getsize. rewrite Hc. fold new_size. lia. }
    split_and!; [done|done|by rewrite Hdel|done|lia|].
    intros Hall.
    apply (check_cache_folder_size_reaches _ _ (map_to_list (cache_folder w)));
      [done|done|]. unfold folder_size, DEFAULT_MAX_SIZE. lia.
  - eexists _, _. split; [vm_compute; reflexivity|].
    split; vm_compute; [discriminate|reflexivity].
Qed.

(** C10, on the world whose folder is exactly full: after the parse the
    folder is at most the size of the new artifact above the budget. *)
Lemma budget_enforced_before_write_witness :
  ∃ (self1 : @DemoFileParser plain_pandas) (w1 : @World plain_pandas plain_pickle),
    parse_fresh (external_cache_path demo_path) (new_instance demo_path) full_world
      = (Returns self1, w1)
    ∧ folder_size (cache_folder w1)
      ≤ DEFAULT_MAX_SIZE
        + Z.of_N (@blob_size plain_pandas plain_pickle
                    (@pickle_dump plain_pandas plain_pickle (stored_data_of self1))).
Proof.
  destruct budget_enforced_before_write as [Hbound _].
  destruct (parse_fresh (external_cache_path demo_path) (new_instance demo_path) full_world)
    as [[self1|e] w1] eqn:Hp; [|vm_compute in Hp; discriminate].
  exists self1, w1. split; [reflexivity|].
  destruct (Hbound _ _ _ _ _ _ _ Hp) as (_ & _ & _ & _ & Hle & Hall).
  apply Hle, Hall. vm_compute. by repeat constructor.
Defined.

(** ** The cache path *)

Lemma re_sub_unsafe_all_safe b s : all_safe (re_sub_unsafe b s) = true.
Proof.
  revert b. induction s as [|c s IH]; intros b; simpl; [done|].
  destruct (is_safe_char c) eqn:Hc; simpl.
  - by rewrite Hc, IH.
  - destruct b; [apply IH|]. simpl. apply IH.
Qed.

Lemma re_sub_unsafe_id b s : all_safe s = true → re_sub_unsafe b s = s.
Proof.
  revert b. induction s as [|c s IH]; intros b; simpl; [done|].
  intros [Hc Hs]%andb_prop. by rewrite Hc, IH.
Qed.

Lemma re_sub_unsafe_length b s :
  (String.length (re_sub_unsafe b s) ≤ String.length s)%nat.
Proof.
  revert b. induction s as [|c s IH]; intros b; simpl; [done|].
  destruct (is_safe_char c); simpl.
  - specialize (IH false). lia.
  - destruct b; simpl; specialize (IH true); lia.
Qed.


Section aliasing.
Context {pandas : Pandas} {pickle : Pickle}.
Implicit Types (self : DemoFileParser) (w : World).

(** Where the cache file does not exist and files can be created,
    [store_to_cache] leaves a readable artifact with the pickled demo. *)
Lemma store_to_cache_created cache_file self w :
  cache_folder w !! cache_file = None → can_create w = true →
  ∃ f, cache_folder (store_to_cache cache_file self w) !! cache_file = Some f
    ∧ f_readable f = true
    ∧ f_content f = pickle_dump (stored_data_of self).
Proof.
  intros Hnone Hcreate. unfold store_to_cache, write_artifact.
  cbn [cache_folder set_cache_folder set_demoDataCache can_create now].
  destruct (check_cache_folder_size DEFAULT_MAX_SIZE (cache_folder w) !! cache_file)
    as [f|] eqn:Hf.
  { apply check_cache_folder_size_lookup in Hf. congruence. }
  rewrite Hcreate. eexists. cbn [cache_folder set_cache_folder].
  rewrite lookup_insert_eq. by split_and!.
Qed.

(** X2. The artifact is named after the base name only. When a demo is
    parsed and its artifact created, a later load of any other path with
    the same base name hits that artifact: it returns the first demo's
    data under the second path, without parsing the second file, and puts
    the first demo's dictionary into the in-process cache under the second
    path. *)
Theorem same_basename_shares_artifact (p1 p2 : string) self1 w w1 :
  PickleRoundTrip →
  basename p1 = basename p2 →
  cache_folder w !! external_cache_path p1 = None →
  can_create w = true →
  demoDataCache w !! p1 = None →
  _parse (new_instance p1) w = (Returns self1, w1) →
  ∃ self2,
    _parse (new_instance p2) w1
      = (Returns self2,
         set_demoDataCache (<[p2 := stored_data_of self1]> (demoDataCache w1)) w1)
    ∧ file self2 = p2
    ∧ same_demo self1 self2.
Proof.
  intros Hrt Hbase Hnone Hcreate Hmem.
  assert (Hpath : external_cache_path p2 = external_cache_path p1).
  { unfold external_cache_path. by rewrite Hbase. }
  rewrite _parse_cases. cbn [file new_instance].
  rewrite (disk_artifact_absent _ _ Hnone), Hmem. intros Hfresh.
  destruct (parse_fresh_same_id _ _ _ _ _ Hfresh) as (_ & -> & _).
  destruct (store_to_cache_created (external_cache_path p1) self1 w Hnone Hcreate)
    as (f & Hf & Hr & Hc).
  set (sd := stored_data_of self1) in *.
  assert (Hd : disk_artifact (external_cache_path p1)
                 (store_to_cache (external_cache_path p1) self1 w) = Some sd).
  { unfold disk_artifact. rewrite Hf, Hr, Hc, Hrt. done. }
  rewrite _parse_cases. cbn [file new_instance]. rewrite Hpath, Hd.
  destruct (assign_from_stored self1 (new_instance p2)) as (self2 & Ha & Hsame).
  fold sd in Ha. rewrite Ha. exists self2. split_and!; [done| |done].
  destruct (assign_from_complete sd (new_instance p2) (header self1) (footsteps self1)
              eq_refl eq_refl) as (s & Hs & Hfile & _).
  rewrite Ha in Hs. by injection Hs as <-.
Qed.
End aliasing.

(** X2, on two paths that end in [match.dem]. *)
Lemma same_basename_shares_artifact_witness :
  ∃ self1 self2 w2,
    (_parse (new_instance demo_path) headerless_world).1 = Returns self1
    ∧ _parse (new_instance "/elsewhere/match.dem")
        (_parse (new_instance demo_path) headerless_world).2 = (Returns self2, w2)
    ∧ same_demo self1 self2.
Proof.
  destruct (_parse (new_instance demo_path) headerless_world) as [[self1|e] w1] eqn:Hp;
    [|vm_compute in Hp; discriminate].
  destruct (same_basename_shares_artifact demo_path "/elsewhere/match.dem" self1
              headerless_world w1 plain_pickle_round_trip)
    as (self2 & H2 & _ & Hsame); try reflexivity; [exact Hp|].
  exists self1, self2. eexists. split; [reflexivity|]. split; [exact H2|exact Hsame].
Defined.

(** ** What [_parse] changes *)

Section parse_frame.
Context {pandas : Pandas} {pickle : Pickle}.
Implicit Types (self : DemoFileParser) (w : World) (d : CacheDict).

Lemma write_artifact_frame cache_file d w :
  can_create (write_artifact cache_file d w) = can_create w
  ∧ now (write_artifact cache_file d w) = now w
  ∧ open_demo (write_artifact cache_file d w) = open_demo w.
Proof.
  unfold write_artifact. destruct (cache_folder w !! cache_file) as [f|].
  - by destruct (f_writable f).
  - destruct (can_create w) eqn:Hc; cbn; by rewrite ?Hc.
Qed.

Lemma parse_fresh_world cache_file self w :
  match parse_fresh cache_file self w with
  | (Returns self1, w1) => w1 = store_to_cache cache_file self1 w ∧ file self1 = file self
  | (Raises _, w1) => w1 = w
  end.
Proof.
  destruct (parse_fresh cache_file self w) as [[self1|e] w1] eqn:Hp.
  - by destruct (parse_fresh_same_id _ _ _ _ _ Hp) as (? & ? & _).
  - revert Hp. unfold parse_fresh.
    destruct (open_demo w (file self)) as [p|]; [|by intros [= _ <-]].
    destruct (parse_event_player_death_weapons p); [|by intros [= _ <-]].
    destruct (parse_event_player_death p); [|by intros [= _ <-]].
    destruct (parse_event_round_end p); [done|by intros [= _ <-]].
Qed.

Lemma assign_from_file d self self' :
  assign_from d self = AllAssigned self' → file self' = file self.
Proof.
  unfold assign_from. destruct (sd_header d); [|done].
  destruct (sd_footsteps d); [|done]. by intros [= <-].
Qed.


Lemma store_to_cache_mem_wf cache_file self w :
  mem_wf w → mem_wf (store_to_cache cache_file self w).
Proof.
  intros Hwf k c. rewrite store_to_cache_mem.
  destruct (decide (k = file self)) as [->|Hk].
  - rewrite lookup_insert_eq. intros [= <-]. cbn. eauto.
  - rewrite lookup_insert_ne by done. apply Hwf.
Qed.

(** X4. The in-process cache only ever holds dictionaries with the
    [header] and [footsteps] keys: [_parse] keeps that invariant, and
    where it holds the in-process loader raises no [KeyError], so a load
    raises only when both tiers missed and the parse of the file itself
    raised. *)
Theorem _parse_keeps_mem_wf self w :
  mem_wf w →
  mem_wf (_parse self w).2
  ∧ (∀ e, (_parse self w).1 = Raises e →
       disk_artifact (external_cache_path (file self)) w = None
       ∧ demoDataCache w !! file self = None
       ∧ (parse_fresh (external_cache_path (file self)) self w).1 = Raises e).
Proof.
  intros Hwf. rewrite _parse_cases. set (cache_file := external_cache_path (file self)).
  destruct (disk_artifact cache_file w) as [d|] eqn:Hd.
  - destruct (_load_from_cache_hit cache_file self w d Hd) as (s & Ha & _).
    rewrite Ha. cbn. split; [|done].
    apply disk_artifact_Some in Hd as (f & h & fs & _ & _ & _ & Hh & Hfs).
    intros k c. cbn. destruct (decide (k = file self)) as [->|Hk].
    + rewrite lookup_insert_eq. intros [= <-]. rewrite Hh, Hfs. eauto.
    + rewrite lookup_insert_ne by done. apply Hwf.
  - destruct (demoDataCache w !! file self) as [c|] eqn:Hm.
    + destruct (Hwf _ _ Hm) as [[h Hh] [fs Hfs]].
      destruct (assign_from_complete c self h fs Hh Hfs) as (s & -> & _). by cbn.
    + pose proof (parse_fresh_world cache_file self w) as Hw.
      destruct (parse_fresh cache_file self w) as [[self1|e] w1]; cbn.
      * destruct Hw as [-> _]. split; [by apply store_to_cache_mem_wf|done].
      * subst w1. split; [done|]. by intros e' [= <-].
Qed.
End parse_frame.

(** X4, from a world whose in-process cache holds a complete dictionary. *)
Lemma _parse_keeps_mem_wf_witness :
  mem_wf (_parse (new_instance demo_path) corrupt_with_memory_world).2.
Proof.
  apply (_parse_keeps_mem_wf (new_instance demo_path) corrupt_with_memory_world).
  intros k c. unfold corrupt_with_memory_world, world_of. cbn [demoDataCache].
  intros [<- <-]%lookup_singleton_Some. cbn. eauto.
Defined.

(** ** More on the disk budget *)

Section budget_more.
Context {pandas : Pandas} {pickle : Pickle}.
Implicit Types (folder : gmap string DiskFile) (files : list (string * DiskFile)).

Lemma check_cache_folder_size_within B folder :
  folder_size folder ≤ B → check_cache_folder_size B folder = folder.
Proof.
  intros Hle. unfold check_cache_folder_size, check_cache_folder_size_on.
  fold (folder_size folder). by destruct (Z.gtb_spec (folder_size folder) B); [lia|].
Qed.

Lemma removed_oldest_none B files t :
  Forall (λ x, f_removable x.2 = false) files → removed_oldest B files t = [].
Proof.
  revert t. induction files as [|[fp f] l IH]; intros t Hall; simpl; [done|].
  apply Forall_cons in Hall as [Hf Hall]. simpl in Hf. rewrite Hf.
  destruct (t <=? B); [done|]. by apply IH.
Qed.

(** The entries that [check_cache_folder_size] removes and keeps, read off
    the mtime-ordered listing. *)
Lemma check_cache_folder_size_split B folder :
  ∃ k : nat,
    (folder_size (check_cache_folder_size B folder) ≤ B
     ∨ k = length (by_mtime folder))
    ∧ ∀ fp f, folder !! fp = Some f →
        (check_cache_folder_size B folder !! fp = None
         → (fp, f) ∈ take k (by_mtime folder) ∧ f_removable f = true)
        ∧ (check_cache_folder_size B folder !! fp = Some f
           ∨ check_cache_folder_size B folder !! fp = None)
        ∧ (check_cache_folder_size B folder !! fp = Some f
           → f_removable f = true → (fp, f) ∈ drop k (by_mtime folder)).
Proof.
  destruct (check_cache_folder_size_spec B folder) as (k & _ & Heq & _ & Hstop & _).
  cbn zeta in *. exists k. split; [done|].
  intros fp f Hf. rewrite Heq, lookup_foldl_delete.
  assert (Hin : (fp, f) ∈ by_mtime folder).
  { rewrite by_mtime_Permutation. by apply elem_of_map_to_list. }
  assert (Hgone : fp ∈ (removable (take k (by_mtime folder))).*1 →
                  (fp, f) ∈ take k (by_mtime folder) ∧ f_removable f = true).
  { intros ([fp' f'] & -> & Hx)%list_elem_of_fmap.
    apply list_elem_of_filter in Hx as [Hr Hx]. cbn in *.
    assert (f' = f) as ->; [|done].
    assert (Hx' : (fp', f') ∈ by_mtime folder).
    { apply elem_of_take in Hx as (i & Hi & _). by eapply list_elem_of_lookup_2. }
    apply by_mtime_lookup in Hx'. cbn in Hx'. congruence. }
  destruct (decide (fp ∈ (removable (take k (by_mtime folder))).*1)) as [Hd|Hd].
  - split_and!; [by intros _; apply Hgone|by right|done].
  - rewrite Hf. split_and!; [done|by left|].
    intros _ Hr. rewrite <- (take_drop k (by_mtime folder)) in Hin.
    apply elem_of_app in Hin as [Hin|Hin]; [|done].
    exfalso. apply Hd. apply (list_elem_of_fmap_2 fst _ (fp, f)).
    by apply list_elem_of_filter.
Qed.

(** X5. Enforcing the budget only removes files: every file that is left
    is a file that was there, unchanged; a file that cannot be removed is
    always left; the total never grows; and a folder within the limit is
    left as it is. *)
Theorem check_cache_folder_size_only_removes B folder :
  check_cache_folder_size B folder ⊆ folder
  ∧ (∀ fp f, folder !! fp = Some f → f_removable f = false →
       check_cache_folder_size B folder !! fp = Some f)
  ∧ folder_size (check_cache_folder_size B folder) ≤ folder_size folder
  ∧ (folder_size folder ≤ B → check_cache_folder_size B folder = folder).
Proof.
  split_and!.
  - apply map_subseteq_spec. intros fp f. apply check_cache_folder_size_lookup.
  - intros fp f Hf Hr.
    destruct (check_cache_folder_size_split B folder) as (k & _ & Hk).
    destruct (Hk fp f Hf) as (Hgone & [?|Hnone] & _); [done|].
    destruct (Hgone Hnone) as [_ ?]. congruence.
  - destruct (check_cache_folder_size_spec B folder) as (k & _ & _ & -> & _).
    pose proof (total_size_of_nonneg (removable (take k (by_mtime folder)))). lia.
  - apply check_cache_folder_size_within.
Qed.

(** X6. Enforcing the budget twice is enforcing it once: after an
    enforcement either the folder is within the limit or no file in it can
    be removed. *)
Theorem check_cache_folder_size_idempotent B folder :
  check_cache_folder_size B (check_cache_folder_size B folder)
  = check_cache_folder_size B folder.
Proof.
  destruct (check_cache_folder_size_split B folder) as (k & [Hle | ->] & Hk).
  { by apply check_cache_folder_size_within. }
  set (folder' := check_cache_folder_size B folder) in *.
  assert (Hall : Forall (λ x : string * DiskFile, f_removable x.2 = false)
                   (by_mtime folder')).
  { apply Forall_forall. intros [fp f] Hx. cbn.
    apply by_mtime_lookup in Hx. cbn in Hx.
    pose proof (check_cache_folder_size_lookup _ _ _ _ Hx) as Hf.
    destruct (Hk fp f Hf) as (_ & _ & Hdrop).
    destruct (f_removable f) eqn:Hr; [|done].
    specialize (Hdrop Hx eq_refl). rewrite drop_all in Hdrop.
    by apply elem_of_nil in Hdrop. }
  unfold check_cache_folder_size at 1, check_cache_folder_size_on.
  destruct (_ >? B); [|done].
  fold (by_mtime folder'). rewrite remove_oldest_spec. cbn [snd].
  by rewrite removed_oldest_none.
Qed.

(** X7. Oldest first: a file that was removed is never newer than a
    removable file that was kept. *)
Theorem check_cache_folder_size_oldest_first B folder fp f fq g :
  folder !! fp = Some f →
  check_cache_folder_size B folder !! fp = None →
  check_cache_folder_size B folder !! fq = Some g →
  f_removable g = true →
  f_mtime f ≤ f_mtime g.
Proof.
  intros Hf Hgone Hkept Hr.
  destruct (check_cache_folder_size_split B folder) as (k & _ & Hk).
  destruct (Hk fp f Hf) as (Htake & _). destruct (Htake Hgone) as [Hin _].
  pose proof (check_cache_folder_size_lookup _ _ _ _ Hkept) as Hg.
  destruct (Hk fq g Hg) as (_ & _ & Hdrop). specialize (Hdrop Hkept Hr).
  pose proof (sorted_by_key_sorted (λ x : string * DiskFile, f_mtime x.2)
                (map_to_list folder)) as Hs.
  fold (by_mtime folder) in Hs. rewrite <- (take_drop k (by_mtime folder)) in Hs.
  by apply (StronglySorted_app_1_elem_of _ _ _ (fp, f) (fq, g) Hs).
Qed.
End budget_more.

(** X7, on a folder of two removable artifacts with limit 10: the older
    one is removed and the newer one kept. *)
Lemma check_cache_folder_size_oldest_first_witness :
  f_mtime older_artifact ≤ f_mtime free_artifact.
Proof.
  apply (check_cache_folder_size_oldest_first 10 two_free_artifacts
           "dem_cache/demcache_a.dem.pkl" older_artifact
           "dem_cache/demcache_b.dem.pkl" free_artifact);
    vm_compute; reflexivity.
Defined.

(** ** Clearing the cache *)

Lemma existsb_is_sep_append a b :
  existsb is_sep (list_ascii_of_string (a +:+ b))
  = existsb is_sep (list_ascii_of_string a) || existsb is_sep (list_ascii_of_string b).
Proof.
  induction a as [|c a IH]; [done|].
  change (String c a +:+ b) with (String c (a +:+ b)).
  cbn [list_ascii_of_string existsb]. by rewrite IH, orb_assoc.
Qed.

Lemma all_safe_no_sep s : all_safe s = true → existsb is_sep (list_ascii_of_string s) = false.
Proof.
  induction s as [|c s IH]; simpl; [done|].
  intros [Hc Hs]%andb_prop. rewrite (IH Hs), orb_false_r.
  destruct c as [[] [] [] [] [] [] [] []]; vm_compute in Hc |- *; congruence.
Qed.

Lemma strip_prefix_append p s : strip_prefix p (p +:+ s) = Some s.
Proof.
  induction p as [|c p IH]; [done|].
  change (String c p +:+ s) with (String c (p +:+ s)). cbn [strip_prefix].
  by rewrite Ascii.eqb_refl.
Qed.

Lemma string_append_assoc (a b c : string) : (a +:+ b) +:+ c = a +:+ (b +:+ c).
Proof.
  induction a as [|x a IH]; [done|].
  change ((String x a +:+ b) +:+ c) with (String x ((a +:+ b) +:+ c)).
  change (String x a +:+ (b +:+ c)) with (String x (a +:+ (b +:+ c))).
  by rewrite IH.
Qed.

(** The artifact of any demo path is among the entries that
    [clear_cache] globs. *)
Lemma glob_star_external_cache_path demo_path :
  glob_star CACHE_FOLDER (external_cache_path demo_path) = true.
Proof.
  unfold glob_star, external_cache_path, path_join.
  set (name := re_sub_unsafe false (basename demo_path)).
  rewrite <- (string_append_assoc CACHE_FOLDER "/"), strip_prefix_append.
  change ("demcache_" +:+ name +:+ ".pkl")
    with (String "d" ("emcache_" +:+ name +:+ ".pkl")).
  cbv beta iota.
  change (String "d" ("emcache_" +:+ name +:+ ".pkl"))
    with ("demcache_" +:+ (name +:+ ".pkl")).
  rewrite !existsb_is_sep_append.
  rewrite (all_safe_no_sep name) by apply re_sub_unsafe_all_safe.
  reflexivity.
Qed.

Section clear_facts.
Context {pandas : Pandas} {pickle : Pickle}.
Implicit Types (self : DemoFileParser) (w : World).

Lemma lookup_foldl_remove (folder : gmap string DiskFile)
    (l : list (string * DiskFile)) fp :
  foldl (λ m x, if f_removable x.2 then delete x.1 m else m) folder l !! fp
  = if decide (fp ∈ (removable l).*1) then None else folder !! fp.
Proof.
  assert (Heq : ∀ m : gmap string DiskFile,
            foldl (λ m (x : string * DiskFile),
                     if f_removable x.2 then delete x.1 m else m) m l
            = foldl (λ m (x : string * DiskFile), delete x.1 m) m (removable l)).
  { unfold removable. induction l as [|[fq f] l IH]; intros m; [done|]. cbn [foldl snd fst].
    destruct (f_removable f) eqn:Hr.
    - rewrite filter_cons_True by done. cbn. apply IH.
    - rewrite filter_cons_False by (cbn; congruence). apply IH. }
  rewrite Heq. apply lookup_foldl_delete.
Qed.

(** What [clear_cache] leaves of the folder. *)
Lemma clear_cache_lookup w fp :
  cache_folder (clear_cache w) !! fp
  = match cache_folder w !! fp with
    | Some f => if glob_star CACHE_FOLDER fp && f_removable f then None else Some f
    | None => None
    end.
Proof.
  unfold clear_cache. cbn [cache_folder set_cache_folder set_demoDataCache].
  rewrite lookup_foldl_remove.
  destruct (cache_folder w !! fp) as [f|] eqn:Hf.
  - destruct (decide _) as [Hin|Hin].
    + apply list_elem_of_fmap in Hin as ([fq g] & -> & Hx). cbn in *.
      apply list_elem_of_filter in Hx as [Hr Hx].
      apply list_elem_of_filter in Hx as [Hg Hx].
      apply elem_of_map_to_list in Hx. cbn in *.
      assert (g = f) as -> by congruence. by rewrite Hg, Hr.
    + destruct (glob_star CACHE_FOLDER fp) eqn:Hg; [|done].
      destruct (f_removable f) eqn:Hr; [|done]. exfalso. apply Hin.
      apply (list_elem_of_fmap_2 fst _ (fp, f)).
      apply list_elem_of_filter. split; [done|].
      apply list_elem_of_filter. split; [done|]. by apply elem_of_map_to_list.
  - destruct (decide _) as [Hin|Hin]; [done|done].
Qed.

End clear_facts.

(** ** The demo a fresh parse yields *)

Lemma normalize_team_name_range v :
  is_team (normalize_team_name v) ∨ normalize_team_name v = PyNone.
Proof.
  unfold is_team. destruct v as [| b | z | s].
  - rewrite normalize_other by auto. by right.
  - rewrite normalize_other by eauto. by right.
  - rewrite normalize_int.
    destruct (decide (z = 3)); [|destruct (decide (z = 2))]; auto.
  - rewrite normalize_str.
    destruct (decide (upper s ∈ CT_NAMES)); [|destruct (decide (upper s ∈ T_NAMES))]; auto.
Qed.

Lemma is_CT_or_T_spec v : is_CT_or_T v = true ↔ is_team v.
Proof. unfold is_CT_or_T, is_team. apply bool_decide_eq_true. Qed.

Section parsed_facts.
Context {pandas : Pandas} {pickle : Pickle}.
Implicit Types (self : DemoFileParser) (w : World).

Lemma foldl_preserves {B} (P : DemoFileParser → Prop)
    (step : DemoFileParser → B → DemoFileParser) (l : list B) self :
  (∀ s x, P s → P (step s x)) → P self → P (foldl step self l).
Proof.
  intros Hstep. revert self. induction l as [|x l IH]; intros self Hwf; simpl; [done|].
  by apply IH, Hstep.
Qed.

Lemma demo_wf_foldl {B} (step : DemoFileParser → B → DemoFileParser) (l : list B) self :
  (∀ s x, demo_wf s → demo_wf (step s x)) → demo_wf self → demo_wf (foldl step self l).
Proof. apply (foldl_preserves demo_wf). Qed.

Lemma footstep_step_set_rounds self row :
  set_rounds [] (footstep_step self row) = footstep_step (set_rounds [] self) row.
Proof.
  destruct row as (ix & [x|] & [y|] & pname & tname); try done.
  unfold footstep_step. destruct (truthy pname); [|done].
  by destruct (is_CT_or_T _).
Qed.

(** Adding a truthy player, with a normalised team or without, keeps the
    player attributes fitting. *)
Lemma players_wf_add self name team :
  truthy name = true → is_team team → players_wf self →
  (∀ k v, <[name := team]> (player_teams self) !! k = Some v →
     is_team v ∧ k ∈ {[name]} ∪ players self)
  ∧ (∀ k, k ∈ {[name]} ∪ players self → truthy k = true).
Proof.
  intros Hname Hteam [Ht Hp]. split.
  - intros k v. destruct (decide (k = name)) as [->|Hk].
    + rewrite lookup_insert_eq. intros [= <-]. split; [done|set_solver].
    + rewrite lookup_insert_ne by done. intros Hkv.
      destruct (Ht k v Hkv). split; [done|set_solver].
  - intros k [->%elem_of_singleton|Hk]%elem_of_union; [done|by apply Hp].
Qed.

Lemma footstep_step_wf self row : demo_wf self → demo_wf (footstep_step self row).
Proof.
  intros (Hf & Hr & Hp).
  destruct row as (ix & [x|] & [y|] & pname & tname); try done.
  unfold footstep_step.
  assert (Hf' : Forall (λ fs, is_team (fs_team fs) ∨ fs_team fs = PyNone)
                  (footsteps self ++
                     [{| fs_idx := ix; fs_x := x; fs_y := y; fs_player := pname;
                         fs_team := normalize_team_name tname |}])).
  { apply Forall_app. split; [done|]. apply Forall_singleton.
    apply normalize_team_name_range. }
  destruct (truthy pname) eqn:Hn; [|by split_and!].
  destruct (is_CT_or_T (normalize_team_name tname)) eqn:Ht.
  - apply is_CT_or_T_spec in Ht.
    destruct (players_wf_add self pname _ Hn Ht Hp) as [H1 H2].
    split_and!; done.
  - destruct Hp as [Hp1 Hp2]. split_and!; try done. split; cbn.
    + intros k v Hkv. destruct (Hp1 k v Hkv). split; [done|set_solver].
    + intros k [->%elem_of_singleton|Hk]%elem_of_union; [done|by apply Hp2].
Qed.

Lemma round_step_wf self row : demo_wf self → demo_wf (round_step self row).
Proof.
  intros (Hf & Hr & Hp). unfold round_step.
  destruct (re_total_rounds_played row) as [n|]; [|done].
  destruct (is_CT_or_T _) eqn:Ht; [|done].
  apply is_CT_or_T_spec in Ht. split_and!; try done. cbn.
  apply Forall_app. split; [done|]. by apply Forall_singleton.
Qed.

Lemma player_info_step_wf self row : demo_wf self → demo_wf (player_info_step self row).
Proof.
  intros (Hf & Hr & Hp). unfold player_info_step.
  destruct (truthy (pi_name row)) eqn:Hn; [|done]. cbn [andb].
  destruct (truthy (pi_team_number row)); [|done].
  destruct (bool_decide (pi_team_number row = PyInt 3)).
  - destruct (players_wf_add self (pi_name row) (PyStr "CT") Hn (or_introl eq_refl) Hp).
    by split_and!.
  - destruct (bool_decide (pi_team_number row = PyInt 2)); [|done].
    destruct (players_wf_add self (pi_name row) (PyStr "T") Hn (or_intror eq_refl) Hp).
    by split_and!.
Qed.

Lemma fallback_step_wf t self i : demo_wf self → demo_wf (fallback_step t self i).
Proof.
  intros (Hf & Hr & Hp). unfold fallback_step.
  destruct (truthy (py_or _ _)) eqn:Hn; [|done]. cbn [andb].
  destruct (is_CT_or_T _) eqn:Ht; [|done]. apply is_CT_or_T_spec in Ht.
  destruct (players_wf_add self _ _ Hn Ht Hp). by split_and!.
Qed.

Lemma new_instance_players_wf path : players_wf (new_instance path).
Proof.
  split; cbn.
  - intros k v Hk. by apply lookup_empty_Some in Hk.
  - intros k Hk. by apply not_elem_of_empty in Hk.
Qed.

End parsed_facts.


Lemma omap_length_le {A B} (f : A → option B) (l : list A) :
  (length (omap f l) ≤ length l)%nat.
Proof. induction l as [|a l IH]; cbn; [lia|]. destruct (f a); cbn; lia. Qed.

Section parsed_lists.
Context {pandas : Pandas} {pickle : Pickle}.
Implicit Types (self : DemoFileParser) (w : World).

Lemma footsteps_footstep_step self row :
  footsteps (footstep_step self row)
  = (footsteps self ++ match step_of_row row with Some s => [s] | None => [] end)%list.
Proof.
  destruct row as (ix & [x|] & [y|] & pname & tname); cbn;
    try (by rewrite app_nil_r).
  destruct (truthy pname); [|reflexivity].
  destruct (is_CT_or_T _); reflexivity.
Qed.

Lemma footsteps_foldl_footstep_step self rows :
  footsteps (foldl footstep_step self rows)
  = (footsteps self ++ omap step_of_row rows)%list.
Proof.
  revert self. induction rows as [|row rows IH]; intros self; cbn [foldl].
  { cbn. by rewrite app_nil_r. }
  rewrite IH, footsteps_footstep_step, <- app_assoc. f_equal.
  cbn. by destruct (step_of_row row).
Qed.

Lemma rounds_round_step self row :
  rounds (round_step self row)
  = (rounds self ++ match round_of_row row with Some r => [r] | None => [] end)%list
  ∧ footsteps (round_step self row) = footsteps self.
Proof.
  unfold round_step, round_of_row.
  destruct (re_total_rounds_played row) as [n|]; [|by rewrite app_nil_r].
  destruct (is_CT_or_T _); [done|by rewrite app_nil_r].
Qed.

Lemma rounds_foldl_round_step self rows :
  rounds (foldl round_step self rows) = (rounds self ++ omap round_of_row rows)%list
  ∧ footsteps (foldl round_step self rows) = footsteps self.
Proof.
  revert self. induction rows as [|row rows IH]; intros self; cbn [foldl].
  { cbn. by rewrite app_nil_r. }
  destruct (IH (round_step self row)) as [-> ->].
  destruct (rounds_round_step self row) as [-> ->].
  split; [|done]. rewrite <- app_assoc. f_equal.
  cbn. by destruct (round_of_row row).
Qed.

Lemma player_info_step_lists self row :
  footsteps (player_info_step self row) = footsteps self
  ∧ rounds (player_info_step self row) = rounds self.
Proof.
  unfold player_info_step. destruct (truthy (pi_name row) && _); [|done].
  by destruct (truthy _).
Qed.

Lemma fallback_step_lists t self i :
  footsteps (fallback_step t self i) = footsteps self
  ∧ rounds (fallback_step t self i) = rounds self.
Proof. unfold fallback_step. by destruct (truthy _ && _). Qed.

Lemma read_player_info_lists p self :
  footsteps (read_player_info p self) = footsteps self
  ∧ rounds (read_player_info p self) = rounds self.
Proof.
  unfold read_player_info. destruct (parse_player_info p) as [[[|r rows]|]|]; try done.
  apply (foldl_preserves (λ s, footsteps s = footsteps self ∧ rounds s = rounds self));
    [|done].
  intros s x [<- <-]. apply player_info_step_lists.
Qed.

Lemma fallback_teams_lists t self :
  footsteps (fallback_teams t self) = footsteps self
  ∧ rounds (fallback_teams t self) = rounds self.
Proof.
  unfold fallback_teams. destruct t as [t|]; [|done].
  destruct (bool_decide _ && _); [|done].
  apply (foldl_preserves (λ s, footsteps s = footsteps self ∧ rounds s = rounds self));
    [|done].
  intros s x [<- <-]. apply fallback_step_lists.
Qed.

End parsed_lists.


Section roster.
Context {pandas : Pandas} {pickle : Pickle}.
Implicit Types (self : DemoFileParser) (w : World).

Lemma player_teams_player_info_step self row name :
  player_teams (player_info_step self row) !! name
  = match roster_entry row with
    | Some (n, t) => if decide (n = name) then Some t else player_teams self !! name
    | None => player_teams self !! name
    end.
Proof.
  unfold player_info_step, roster_entry.
  destruct (truthy (pi_name row) && truthy (pi_team_number row)); [|done].
  destruct (bool_decide (pi_team_number row = PyInt 3)); cbn.
  { destruct (decide (pi_name row = name)) as [->|Hn].
    - by rewrite lookup_insert_eq.
    - by rewrite lookup_insert_ne. }
  destruct (bool_decide (pi_team_number row = PyInt 2)); cbn; [|done].
  destruct (decide (pi_name row = name)) as [->|Hn].
  - by rewrite lookup_insert_eq.
  - by rewrite lookup_insert_ne.
Qed.

Lemma players_player_info_step self row name :
  name ∈ players (player_info_step self row)
  ↔ name ∈ players self ∨ ∃ t, roster_entry row = Some (name, t).
Proof.
  unfold player_info_step, roster_entry.
  destruct (truthy (pi_name row) && truthy (pi_team_number row));
    [|by split; [left|intros [?|[? [=]]]]].
  destruct (bool_decide (pi_team_number row = PyInt 3)); cbn.
  { rewrite elem_of_union, elem_of_singleton. split.
    - intros [->|?]; [right; eauto|by left].
    - intros [?|[? [= ->]]]; [by right|by left]. }
  destruct (bool_decide (pi_team_number row = PyInt 2)); cbn.
  { rewrite elem_of_union, elem_of_singleton. split.
    - intros [->|?]; [right; eauto|by left].
    - intros [?|[? [= ->]]]; [by right|by left]. }
  split; [by left|by intros [?|[? [=]]]].
Qed.

Lemma foldl_player_info_step_roster self rows name t :
  roster_team rows name = Some t →
  player_teams (foldl player_info_step self rows) !! name = Some t
  ∧ name ∈ players (foldl player_info_step self rows).
Proof.
  unfold roster_team. induction rows as [|row rows IH] using rev_ind; [done|].
  rewrite !foldl_snoc, player_teams_player_info_step, players_player_info_step.
  destruct (roster_entry row) as [[n t']|]; [|intros []%IH; auto].
  destruct (decide (n = name)) as [->|]; [|intros []%IH; auto].
  intros ->. split; [done|]. right. eauto.
Qed.

(** X11. The roster has the last word on a player's team: when the last
    roster row that names a player with team number 3 or 2 gives 'CT' or
    'T', a fresh parse records exactly that team for the player, whatever
    the tick table said about them, and the player is among the demo's
    players. *)
Theorem parse_fresh_roster_overrides cache_file self w self1 w1 p name t :
  parse_fresh cache_file self w = (Returns self1, w1) →
  open_demo w (file self) = Returns p →
  roster_team (roster_rows p) name = Some t →
  player_teams self1 !! name = Some t ∧ name ∈ players self1.
Proof.
  intros Hp Hopen Hr.
  apply parse_fresh_Returns in Hp as (p' & wd & ed & rd & Hp' & _ & _ & _ & -> & _).
  rewrite Hopen in Hp'. injection Hp' as <-.
  set (s3 := read_rounds _ _).
  assert (Hi : player_teams (read_player_info p s3) !! name = Some t
               ∧ name ∈ players (read_player_info p s3)).
  { unfold read_player_info. unfold roster_rows in Hr.
    destruct (parse_player_info p) as [[[|r rows]|]|]; try done.
    by apply foldl_player_info_step_roster. }
  unfold fallback_teams. destruct (read_ticks p) as [tk|]; [|done].
  destruct (bool_decide (player_teams (read_player_info p s3) = ∅)) eqn:He;
    [|done].
  apply bool_decide_eq_true in He. destruct Hi as [Hi _]. rewrite He in Hi. done.
Qed.
End roster.

(** X11, on the busy demo: the ticks put ann on 'CT', the roster gives her
    team number 2, and the parse records 'T'. *)
Lemma parse_fresh_roster_overrides_witness :
  ∃ self1 w1,
    parse_fresh (external_cache_path demo_path) (new_instance demo_path) busy_world
    = (Returns self1, w1)
    ∧ step_of_row (10, (Some (1 # 1)%Q, (Some (5 # 1)%Q, (PyStr "ann", PyStr "CT"))))
      = Some {| fs_idx := 10; fs_x := (1 # 1)%Q; fs_y := (5 # 1)%Q;
                fs_player := PyStr "ann"; fs_team := PyStr "CT" |}
    ∧ player_teams self1 !! PyStr "ann" = Some (PyStr "T")
    ∧ PyStr "ann" ∈ players self1.
Proof.
  destruct (parse_fresh (external_cache_path demo_path) (new_instance demo_path)
              busy_world) as [[self1|e] w1] eqn:Hp; [|vm_compute in Hp; discriminate].
  exists self1, w1. split; [reflexivity|]. split; [reflexivity|].
  apply (parse_fresh_roster_overrides _ _ _ _ _ busy_decoder _ _ Hp);
    [reflexivity|vm_compute; reflexivity].
Defined.
